(** * Faction augmentation purchase row and screen effects

    A shallow embedding of two presentation modules:

    - [src/ui/React/VFX.tsx]: the [clamp01] / [smoothstep] helpers and the
      [BlackScreen] fade overlay;
    - [src/Faction/ui/PurchaseableAugmentation.tsx]: the table row offering
      one augmentation for purchase, with its [Requirements] cell and its
      click handler.

    JavaScript numbers are idealised as exact rationals ([Q]): no rounding,
    no NaN, no infinities.  Equality of numbers is therefore [Qeq] ([==]).
    Over this idealisation only properties that do not depend on rounding
    are stated.  Where rounding decides (the order of two values of
    [smoothstep], the exact value of the opacity accumulator), the same
    code is also transcribed on binary64 numbers in module [VFX64], and
    evaluated there.
    JSX is modelled by small inductive types that keep exactly the pieces of
    the element tree the components build. *)

From Stdlib Require Import QArith Qround Lqa Lia.
From Stdlib Require Import Floats.PrimFloat.
From stdpp Require Import gmap strings list pretty.

(** ** Numbers *)

Module Number.

(** [a < b] on numbers, as a boolean. *)
Definition ltb (a b : Q) : bool := negb (Qle_bool b a).

(** [a >= b] on numbers, as a boolean. *)
Definition geb (a b : Q) : bool := Qle_bool b a.

(** [a !== b] on numbers, as a boolean. *)
Definition neqb (a b : Q) : bool := negb (Qeq_bool a b).

End Number.

(** ** VFX.tsx *)

Module VFX.

Local Open Scope Q_scope.

(** [function clamp01(x)] *)
Definition clamp01 (x : Q) : Q :=
  if Qle_bool x 0 then 0
  else if Number.geb x 1 then 1
  else x.

(** [function smoothstep(edge0, edge1, x)], in exact arithmetic; the
    rounded computation is [VFX64.smoothstep]. *)
Definition smoothstep (edge0 edge1 x : Q) : Q :=
  let x := clamp01 ((x - edge0) / (edge1 - edge0)) in
  x * x * (3 - 2 * x).

(** [BlackScreenProps]; [onDone] is kept as the [OnDone] action below. *)
Record BlackScreenProps := {
  fadeInMs : option Q;
  fadeOutMs : option Q;
  isFadingIn : bool;
}.

(** The two [useState] cells of [BlackScreen]; [timer] is [true] when
    a handle is stored ([timer !== undefined]). *)
Record BlackScreenState := {
  opacity : Q;
  timer : bool;
}.

(** [useState(isFadingIn ? 1 : 0)], [useState(undefined)] *)
Definition initialState (props : BlackScreenProps) : BlackScreenState :=
  {| opacity := if isFadingIn props then 1 else 0; timer := false |}.

Definition interval : Q := 10.

(** The callback handed to [setInterval]: the new value of the opacity
    cell after one tick, from the previous one, in exact arithmetic; the
    rounded computation is [VFX64.tick]. *)
Definition tick (props : BlackScreenProps) (prevOpacity : Q) : Q :=
  if isFadingIn props then
    match fadeInMs props with
    | None => 0
    | Some fadeInMs => prevOpacity + interval / (- fadeInMs)
    end
  else
    match fadeOutMs props with
    | None => 0
    | Some fadeOutMs => prevOpacity + interval / fadeOutMs
    end.

Fixpoint ticks (props : BlackScreenProps) (n : nat) (o : Q) : Q :=
  match n with
  | O => o
  | S n => ticks props n (tick props o)
  end.

(** What one call of the component asks of React and of the timers. *)
Inductive Action :=
| SetOpacity (v : Q)
| SetInterval
| ClearInterval
| ClearTimer
| OnDone.

Definition isZero (ms : option Q) : bool :=
  match ms with
  | Some v => Qeq_bool v 0
  | None => false
  end.

Definition isUndefined (ms : option Q) : bool :=
  match ms with
  | Some _ => false
  | None => true
  end.

(** The value of [done] on entry. *)
Definition done0 (props : BlackScreenProps) (st : BlackScreenState) : bool :=
  (Qle_bool (opacity st) 0 && (isFadingIn props || isUndefined (fadeOutMs props)))
  || (Number.geb (opacity st) 1 && negb (isFadingIn props)).

(** The body of [BlackScreen] up to the returned element: the actions
    it issues and the [opacity] style of the [div] it returns. *)
Definition BlackScreen (props : BlackScreenProps) (st : BlackScreenState)
  : list Action * Q :=
  let isAnimationRunning := timer st in
  let done := done0 props st in
  let '(acts1, isAnimationRunning, done) :=
    if negb isAnimationRunning && negb done then
      if isZero (fadeInMs props) && isFadingIn props then
        ([SetOpacity 0], true, true)
      else if isZero (fadeOutMs props) && negb (isFadingIn props) then
        ([SetOpacity 1], true, true)
      else ([SetInterval], isAnimationRunning, done)
    else ([], isAnimationRunning, done) in
  let acts2 :=
    if isAnimationRunning && done then [ClearInterval; ClearTimer; OnDone]
    else [] in
  (acts1 ++ acts2, smoothstep 0 1 (opacity st)).

Definition renderedOpacity (props : BlackScreenProps) (st : BlackScreenState) : Q :=
  snd (BlackScreen props st).

End VFX.

(** ** Completions of a render call *)

(** A component call either throws or returns normally. *)
Inductive Completion (A : Type) : Type :=
| Throw (err : string)
| Normal (v : A).
Arguments Throw {A} err.
Arguments Normal {A} v.

#[global] Instance Completion_ret : MRet Completion := fun _ v => Normal v.
#[global] Instance Completion_bind : MBind Completion := fun _ _ k c =>
  match c with
  | Throw err => Throw err
  | Normal v => k v
  end.

#[global] Instance Completion_fmap : FMap Completion := fun _ _ f c =>
  match c with
  | Throw err => Throw err
  | Normal v => Normal (f v)
  end.

(** ** Domain objects read by the row *)

(** The fields of [Augmentation] the component reads. *)
Module Augmentation.
Inductive Info :=
| InfoString (html : string)
| InfoElement (node : string).

Record t := {
  name : string;
  baseCost : Q;
  baseRepRequirement : Q;
  prereqs : list string;
  owned : bool;
  info : Info;
  stats : string;
}.
End Augmentation.

(** [faction.getInfo()] and [faction.playerReputation]. *)
Module Faction.
Record FactionInfo := {
  augmentationPriceMult : Q;
  augmentationRepRequirementMult : Q;
}.

Record t := {
  playerReputation : Q;
  getInfo : FactionInfo;
}.
End Faction.

(** [IPlayer]: balance, installed and queued augmentations. *)
Module IPlayer.
Record PlayerOwnedAugmentation := {
  name : string;
  level : nat;
}.

Record t := {
  money : Q;
  augmentations : list PlayerOwnedAugmentation;
  queuedAugmentations : list PlayerOwnedAugmentation;
}.
End IPlayer.

(** The ambient bindings the module imports: the [Augmentations] catalog,
    [AugmentationNames.NeuroFluxGovernor],
    [Settings.SuppressBuyAugmentationConfirmation] and the value of
    [getNextNeurofluxLevel()]. *)
Record Globals := {
  Augmentations : gmap string Augmentation.t;
  NeuroFluxGovernor : string;
  SuppressBuyAugmentationConfirmation : bool;
  getNextNeurofluxLevel : nat;
}.

(** ** FactionHelpers (prerequisite test) *)

Module FactionHelpers.

Definition ownedOrQueued (p : IPlayer.t) (augName : string) : bool :=
  existsb (fun a => String.eqb (IPlayer.name a) augName)
          (IPlayer.augmentations p ++ IPlayer.queuedAugmentations p).

(** Modelled from the spec: [FactionHelpers.hasAugmentationPrereqs] is
    imported by the component but its file is not part of the sources.
    The unmet prerequisites are the entries of [prereqs], in order, that
    are not present in the player's owned-or-queued set. *)
Definition missingPrereqs (aug : Augmentation.t) (p : IPlayer.t) : list string :=
  List.filter (fun pre => negb (ownedOrQueued p pre)) (Augmentation.prereqs aug).

(** Modelled from the spec: [hasAugmentationPrereqs] holds exactly when
    no prerequisite is unmet.  The source calls it with the augmentation
    only; the player it consults is the one handed to the row. *)
Definition hasAugmentationPrereqs (aug : Augmentation.t) (p : IPlayer.t) : bool :=
  match missingPrereqs aug p with
  | [] => true
  | _ :: _ => false
  end.

End FactionHelpers.

(** ** PurchaseableAugmentation.tsx *)

Module PurchaseableAugmentation.

Local Open Scope Q_scope.

Inductive Color := primary | error.

(** The elements built from [Money] and [Reputation]: their arguments. *)
Record Money := { money : Q; player : IPlayer.t }.

(** [interface IReqProps] *)
Record IReqProps := {
  req_augName : string;
  req_p : IPlayer.t;
  hasReq : bool;
  rep : Q;
  hasRep : bool;
  cost : Q;
  hasCost : bool;
}.

(** What [Requirements] returns: one cell spanning two columns naming the
    prerequisites, or a money cell and a reputation cell of one color. *)
Inductive RequirementsElement :=
| RequiresPrereqs (prereqs : list string)
| CostAndReputation (color : Color) (money : Money) (reputation : Q).

(** [function Requirements(props: IReqProps)].  Reading [aug.prereqs] of a
    missing catalog entry throws a [TypeError]. *)
Definition Requirements (G : Globals) (props : IReqProps)
  : Completion RequirementsElement :=
  let aug := Augmentations G !! req_augName props in
  if negb (hasReq props) then
    match aug with
    | None => Throw "TypeError: aug is undefined"
    | Some aug => Normal (RequiresPrereqs (Augmentation.prereqs aug))
    end
  else
    let color := if negb (hasRep props) && negb (hasCost props)
                 then error else primary in
    Normal (CostAndReputation color
              {| money := cost props; player := req_p props |}
              (rep props)).

(** [interface IProps]; [rerender] is kept as the [rerender] effect. *)
Record IProps := {
  augName : string;
  faction : Faction.t;
  p : IPlayer.t;
  owned_prop : option bool;
}.

(** The three shapes the [status] fragment takes when it is not [null]. *)
Inductive Status :=
| LOCKED_prereqs (prereqs : list string)
| UNLOCKED (repCost : Q) (moneyCost : Money)
| LOCKED_reputation (repCost : Q) (moneyCost : Money).

(** The calls [handleClick] makes, in order. *)
Inductive Effect :=
| createPopup (popupId : string) (aug : Augmentation.t)
              (faction : Faction.t) (player : IPlayer.t)
| purchaseAugmentation (aug : Augmentation.t) (faction : Faction.t)
| rerender.

Section Body.
Variable G : Globals.
Variable aug : Augmentation.t.
Variable props : IProps.

(** [function getMoneyCost()] *)
Definition getMoneyCost : Q :=
  Augmentation.baseCost aug
  * Faction.augmentationPriceMult (Faction.getInfo (faction props)).

(** [function getRepCost()] *)
Definition getRepCost : Q :=
  Augmentation.baseRepRequirement aug
  * Faction.augmentationRepRequirementMult (Faction.getInfo (faction props)).

(** [function hasPrereqs()] *)
Definition hasPrereqs : bool :=
  FactionHelpers.hasAugmentationPrereqs aug (p props).

(** [function hasReputation()] *)
Definition hasReputation : bool :=
  Number.geb (Faction.playerReputation (faction props)) getRepCost.

(** One [for ... of] loop of [owned()]: the first element with the
    row's name sets the flag and leaves the loop. *)
Fixpoint ownedLoop (l : list IPlayer.PlayerOwnedAugmentation) (owned : bool) : bool :=
  match l with
  | [] => owned
  | a :: l =>
      if String.eqb (IPlayer.name a) (augName props) then true
      else ownedLoop l owned
  end.

(** [function owned()] *)
Definition owned : bool :=
  let owned := false in
  let owned := ownedLoop (IPlayer.queuedAugmentations (p props)) owned in
  let owned := ownedLoop (IPlayer.augmentations (p props)) owned in
  owned.

(** [const hasCost]: true when the player can NOT pay. *)
Definition hasCost_ : bool :=
  Number.neqb (Augmentation.baseCost aug) 0
  && Number.ltb (IPlayer.money (p props))
       (Augmentation.baseCost aug
        * Faction.augmentationPriceMult (Faction.getInfo (faction props))).

Definition isNeuroFlux : bool :=
  String.eqb (Augmentation.name aug) (NeuroFluxGovernor G).

(** The locals set by the block "Determine UI properties". *)
Record UIProperties := {
  disabled : bool;
  status : option Status;
  color : Color;
}.

Definition uiProperties : UIProperties :=
  let moneyCost := {| money := getMoneyCost; player := p props |} in
  let repCost := getRepCost in
  let ui := {| disabled := false; status := None; color := primary |} in
  let ui :=
    if negb hasPrereqs then
      {| disabled := true;
         status := Some (LOCKED_prereqs (Augmentation.prereqs aug));
         color := error |}
    else if negb isNeuroFlux && (Augmentation.owned aug || owned) then
      {| disabled := true; status := status ui; color := color ui |}
    else if hasReputation then
      {| disabled := disabled ui;
         status := Some (UNLOCKED repCost moneyCost);
         color := color ui |}
    else
      {| disabled := true;
         status := Some (LOCKED_reputation repCost moneyCost);
         color := error |} in
  if hasCost_ then
    {| disabled := true; status := status ui; color := error |}
  else ui.

(** "Determine button txt" *)
Definition btnTxt : string :=
  let btnTxt := Augmentation.name aug in
  if isNeuroFlux
  then (btnTxt +:+ " - Level " +:+ pretty (getNextNeurofluxLevel G))%string
  else btnTxt.

(** The tooltip: [aug.info] as raw HTML or as an element, then
    [aug.stats]. *)
Inductive Tooltip :=
| TooltipHtml (html : string) (stats : string)
| TooltipNode (node : string) (stats : string).

Definition tooltip : Tooltip :=
  match Augmentation.info aug with
  | Augmentation.InfoString html => TooltipHtml html (Augmentation.stats aug)
  | Augmentation.InfoElement node => TooltipNode node (Augmentation.stats aug)
  end.

(** [function handleClick()], closed over [disabled]. *)
Definition handleClick (disabled : bool) : list Effect :=
  if disabled then []
  else if negb (SuppressBuyAugmentationConfirmation G) then
    let popupId := "purchase-augmentation-popup"%string in
    [createPopup popupId aug (faction props) (p props)]
  else
    [purchaseAugmentation aug (faction props); rerender].

End Body.

(** The [Button] of the first cell: its click handler (as the calls a
    click makes) and its color. *)
Record Button := { onClick : list Effect; button_color : Color }.

(** The returned [TableRow].  The first cell and the requirement cells
    are present only when [props.owned] is falsy; the first cell holds a
    button only when [status] is not [null]. *)
Record TableRow := {
  buyCell : option (option Button);
  nameCell : string * Tooltip;
  requirementCells : option RequirementsElement;
}.

Inductive Element :=
| Fragment
| Row (row : TableRow).

(** [!props.owned] for the optional boolean. *)
Definition notOwnedProp (props : IProps) : bool :=
  match owned_prop props with
  | Some true => false
  | _ => true
  end.

(** The [IReqProps] object the row hands to [Requirements], from the
    locals [moneyCost], [repCost], [hasReq], [hasRep] and [hasCost]. *)
Definition requirementsProps (aug : Augmentation.t) (props : IProps) : IReqProps :=
  {| req_augName := augName props; req_p := p props;
     cost := getMoneyCost aug props; rep := getRepCost aug props;
     hasReq := hasPrereqs aug props; hasRep := hasReputation aug props;
     hasCost := hasCost_ aug props |}.

(** [export function PurchaseableAugmentation(props: IProps)]: the lines
    written to the console and the returned element, or the error
    thrown. *)
Definition PurchaseableAugmentation (G : Globals) (props : IProps)
  : Completion (list string * Element) :=
  let aug := Augmentations G !! augName props in
  match aug with
  | None => Throw ("aug " +:+ augName props +:+ " does not exists")
  | Some _ =>
    match aug with
    | None =>
        Normal (["Invalid Augmentation when trying to create PurchaseableAugmentation display element: "
                   +:+ augName props]%string,
                Fragment)
    | Some aug =>
        let ui := uiProperties G aug props in
        let button :=
          match status ui with
          | Some _ => Some {| onClick := handleClick G aug props (disabled ui);
                              button_color := color ui |}
          | None => None
          end in
        requirements ←
          (if notOwnedProp props then
             Some <$> Requirements G (requirementsProps aug props)
           else Normal None);
        Normal ([],
                Row {| buyCell := if notOwnedProp props then Some button else None;
                       nameCell := (btnTxt G aug, tooltip aug);
                       requirementCells := requirements |})
    end
  end.

(** The state a row displays: no purchase button at all, a button whose
    click is ignored, or a button whose click goes through.  The content
    of [status] never reaches the page: only whether it is [null]
    decides if a button is drawn. *)
Inductive DisplayState := Locked | Unlocked | AlreadyOwned.

Definition displayState (ui : UIProperties) : DisplayState :=
  match status ui with
  | None => AlreadyOwned
  | Some _ => if disabled ui then Locked else Unlocked
  end.

(** The evaluation's funds flag is the negation of the local [hasCost],
    which is true when the balance is short. *)
Definition hasSufficientFunds (aug : Augmentation.t) (props : IProps) : bool :=
  negb (hasCost_ aug props).

(** The evaluation's reputation flag is the local [hasRep]. *)
Definition hasSufficientRep (aug : Augmentation.t) (props : IProps) : bool :=
  hasReputation aug props.

End PurchaseableAugmentation.

(** ** Arithmetic built-ins used by VFX.tsx *)

Module Math.

Local Open Scope Q_scope.

(** [Math.floor] *)
Definition floor (x : Q) : Q := inject_Z (Qfloor x).

(** [Math.ceil] *)
Definition ceil (x : Q) : Q := inject_Z (Qceiling x).

(** [Math.min] of two numbers *)
Definition min (a b : Q) : Q := if Qle_bool a b then a else b.

(** The integer part of a quotient, rounded toward zero. *)
Definition trunc (x : Q) : Z := if Qle_bool 0 x then Qfloor x else Qceiling x.

(** [a % b]: the remainder takes the sign of the dividend. *)
Definition rem (a b : Q) : Q := a - b * inject_Z (trunc (a / b)).

(** [Math.random]: the successive draws, each in [0, 1). *)
Definition Random := nat -> Q.

End Math.

(** ** VFX.tsx: the dead-pixel canvas *)

Module DeadPixels.

Local Open Scope Q_scope.

Definition MAX_HUE : Q := 360.
Definition HUE_STEPS : Q := 120.

(** [function getHue(offset, periodMillis)]; [now] is the reading of
    [performance.now()].  In exact arithmetic: the quotient is not
    rounded before the remainder is taken, so this definition fixes the
    set of hues the code can return, not which of two neighbouring hues
    it returns at a boundary. *)
Definition getHue (now : Q) (offset periodMillis : Q) : Q :=
  Math.floor (Math.rem (now * MAX_HUE / periodMillis + offset * MAX_HUE) MAX_HUE
              / HUE_STEPS)
  * HUE_STEPS.

(** [ctx.canvas.width], [ctx.canvas.height] *)
Record Canvas := { width : Q; height : Q }.

(** The locals [logoSize] and [center] that [setup] assigns. *)
Record Locals := { logoSize : Q; center_x : Q; center_y : Q }.

(** The values the component body gives them before [setup] runs. *)
Definition initialLocals : Locals :=
  {| logoSize := 0; center_x := 0; center_y := 0 |}.

(** The calls made on the 2D context, in order. *)
Inductive CanvasCmd :=
| SetComposite (op : string)
| SetImageRendering (mode : string)
| BeginPath
| SetFillStyle (hue : Q)
| Rect (x y w h : Q)
| Fill
| DrawImage (x y w h : Q).

(** [function setup(ctx)]: the new values of the locals. *)
Definition setup (canvas : Canvas) : Locals :=
  {| logoSize := Math.min (width canvas) (height canvas);
     center_x := width canvas * (1 # 2);
     center_y := height canvas * (1 # 2) |}.

(** The [logo.onload] handler installed by [setup]. *)
Definition onload : list CanvasCmd :=
  [SetComposite "source-atop"; SetImageRendering "pixelated"].

(** The cell of pixel [i] on a grid [size] cells wide: [x] and [y]. *)
Definition cell (size i : Q) : Q * Q :=
  (Math.rem i size, Math.floor (i / size)).

(** The body of the [for ... of] loop of [draw], for the entries of the
    map in iteration order; the [k]-th call of [getHue] reads the clock
    at [clock k]. *)
Fixpoint paintPixels (clock : nat -> Q) (size pixel_w pixel_h : Q)
    (pixels : list (Q * Q)) (k : nat) : list CanvasCmd :=
  match pixels with
  | [] => []
  | (i, offset) :: pixels =>
      let x := fst (cell size i) in
      let y := snd (cell size i) in
      [BeginPath;
       SetFillStyle (getHue (clock k) offset 500);
       Rect (x * pixel_w) (y * pixel_h) pixel_w pixel_h;
       Fill]
      ++ paintPixels clock size pixel_w pixel_h pixels (S k)
  end.

(** [function draw(ctx)] *)
Definition draw (clock : nat -> Q) (canvas : Canvas) (locals : Locals)
    (size : Q) (pixels : list (Q * Q)) : list CanvasCmd :=
  let pixel_w := Math.ceil (width canvas / size) in
  let pixel_h := Math.ceil (height canvas / size) in
  [SetComposite "source-over"]
  ++ paintPixels clock size pixel_w pixel_h pixels 0
  ++ [SetComposite "destination-in";
      DrawImage (center_x locals - logoSize locals * (1 # 2))
                (center_y locals - logoSize locals * (1 # 2))
                (logoSize locals) (logoSize locals);
      SetComposite "source-over"].

(** The context's [globalCompositeOperation] while a command list runs:
    each painting command paired with the mode it runs under, and the
    mode left at the end. *)
Fixpoint runComposite (mode : string) (cmds : list CanvasCmd)
  : list (string * CanvasCmd) * string :=
  match cmds with
  | [] => ([], mode)
  | SetComposite op :: cmds => runComposite op cmds
  | (Fill as c) :: cmds | (DrawImage _ _ _ _ as c) :: cmds =>
      let '(painted, final) := runComposite mode cmds in
      ((mode, c) :: painted, final)
  | _ :: cmds => runComposite mode cmds
  end.

End DeadPixels.

(** ** VFX.tsx: the fade overlay over time *)

Module BlackScreenRun.

Import VFX.
Local Open Scope Q_scope.

(** The effect of one issued action on the two state cells. *)
Definition applyAction (st : BlackScreenState) (a : Action) : BlackScreenState :=
  match a with
  | SetOpacity v => {| opacity := v; timer := timer st |}
  | SetInterval => {| opacity := opacity st; timer := true |}
  | ClearInterval => st
  | ClearTimer => {| opacity := opacity st; timer := false |}
  | OnDone => st
  end.

(** One call of the component: the state it leaves for the next call. *)
Definition render (props : BlackScreenProps) (st : BlackScreenState)
  : BlackScreenState :=
  fold_left applyAction (fst (BlackScreen props st)) st.

(** One firing of the interval callback. *)
Definition onInterval (props : BlackScreenProps) (st : BlackScreenState)
  : BlackScreenState :=
  {| opacity := tick props (opacity st); timer := timer st |}.

(** A count of interval firings, as a number. *)
Definition natQ (n : nat) : Q := inject_Z (Z.of_nat n).

(** How many times [onDone] is called by a list of actions. *)
Definition countOnDone (acts : list Action) : nat :=
  length (List.filter (fun a => match a with OnDone => true | _ => false end) acts).

End BlackScreenRun.

(** ** VFX.tsx: the glitch text *)

Module GlitchyTypography.

Local Open Scope Q_scope.

Record Offset := { x : Q; y : Q }.

(** [GlitchyTypographyProps], without [children] and [style]. *)
Record Props := {
  maxOffset : Q;
  colors : list string;
  intervalMs : Q;
  probability : Q;
}.

(** [useState(colors.map(() => ({ x: 0, y: 0 })))] *)
Definition initialOffsets (props : Props) : list Offset :=
  List.map (fun _ => {| x := 0; y := 0 |}) (colors props).

(** [colors.map(() => ...)] inside the interval callback: each element
    draws [x], then [y], then one more number for the log line.  [k] is
    the index of the next draw. *)
Fixpoint mapOffsets (rnd : Math.Random) (maxOffset : Q) (colors : list string)
    (k : nat) : list Offset * nat :=
  match colors with
  | [] => ([], k)
  | _ :: colors =>
      let a := {| x := rnd k * 2 * maxOffset - maxOffset;
                  y := rnd (S k) * 2 * maxOffset - maxOffset |} in
      let '(rest, k') := mapOffsets rnd maxOffset colors (S (S (S k))) in
      (a :: rest, k')
  end.

(** The interval callback: the argument of [setLastOffsets] when it is
    called, and the index of the next draw. *)
Definition onInterval (props : Props) (rnd : Math.Random) (k : nat)
  : option (list Offset) * nat :=
  if Number.ltb (probability props) (rnd k) then (None, S k)
  else
    let '(offsets, k') := mapOffsets rnd (maxOffset props) (colors props) (S k) in
    (Some offsets, k').

(** The state cell [lastOffsets] after one firing of the callback. *)
Definition nextOffsets (props : Props) (rnd : Math.Random) (k : nat)
    (lastOffsets : list Offset) : list Offset * nat :=
  match onInterval props rnd k with
  | (Some offsets, k') => (offsets, k')
  | (None, k') => (lastOffsets, k')
  end.

(** [n] firings in a row of one interval, from draw [k] on.  [props]
    are the props the interval's callback closed over: those of the
    render in which the effect last ran, not those of later renders. *)
Fixpoint firings (props : Props) (rnd : Math.Random) (n : nat) (k : nat)
    (lastOffsets : list Offset) : list Offset * nat :=
  match n with
  | O => (lastOffsets, k)
  | S n =>
      let '(lastOffsets, k) := nextOffsets props rnd k lastOffsets in
      firings props rnd n k lastOffsets
  end.

(** The reads [colors[i]] of a render that maps over [lastOffsets]:
    [None] where [colors[i]] is [undefined]. *)
Definition colorLookups (colors : list string) (lastOffsets : list Offset)
  : list (option string) :=
  imap (fun i _ => colors !! i) lastOffsets.

(** Every draw of [Math.random] lies in [0, 1). *)
Definition unitDraws (rnd : Math.Random) : Prop :=
  forall n, 0 <= rnd n /\ rnd n < 1.

(** Both coordinates of an offset lie in [-m, m). *)
Definition within (m : Q) (o : Offset) : Prop :=
  (- m <= x o /\ x o < m) /\ (- m <= y o /\ y o < m).

(** A source of draws that always yields one half, and a two-color text
    glitching by up to 5 pixels at every firing. *)
Definition half : Math.Random := fun _ => 1 # 2.
Definition twoColors : Props :=
  {| maxOffset := 5; colors := ["#ff0000"; "#00ffff"]%string;
     intervalMs := 100; probability := 1 |}.

(** The timer calls of the [useEffect] body. *)
Inductive TimerAction :=
| ClearTimeout
| SetTimerUndefined
| SetInterval (ms : Q).

Definition effect (props : Props) : list TimerAction :=
  if Qeq_bool (maxOffset props) 0 then [ClearTimeout; SetTimerUndefined]
  else [ClearTimeout; SetInterval (intervalMs props)].

End GlitchyTypography.

(** ** VFX.tsx on binary64 numbers *)

Module VFX64.

Local Open Scope float_scope.

(** [function clamp01(x)]; every comparison with NaN is false. *)
Definition clamp01 (x : float) : float :=
  if PrimFloat.leb x 0 then 0
  else if PrimFloat.leb 1 x then 1
  else x.

(** [function smoothstep(edge0, edge1, x)], each operation rounded. *)
Definition smoothstep (edge0 edge1 x : float) : float :=
  let x := clamp01 ((x - edge0) / (edge1 - edge0)) in
  x * x * (3 - 2 * x).

(** [BlackScreenProps] with durations as binary64 numbers. *)
Record BlackScreenProps := {
  fadeInMs : option float;
  fadeOutMs : option float;
  isFadingIn : bool;
}.

Definition interval : float := 10.

(** The callback handed to [setInterval]. *)
Definition tick (props : BlackScreenProps) (prevOpacity : float) : float :=
  if isFadingIn props then
    match fadeInMs props with
    | None => 0
    | Some fadeInMs => prevOpacity + interval / (- fadeInMs)
    end
  else
    match fadeOutMs props with
    | None => 0
    | Some fadeOutMs => prevOpacity + interval / fadeOutMs
    end.

Fixpoint ticks (props : BlackScreenProps) (n : nat) (o : float) : float :=
  match n with
  | O => o
  | S n => ticks props n (tick props o)
  end.

(** The value of [done] for an opacity cell holding [opacity]. *)
Definition done0 (props : BlackScreenProps) (opacity : float) : bool :=
  (PrimFloat.leb opacity 0
   && (isFadingIn props
       || match fadeOutMs props with None => true | Some _ => false end))
  || (PrimFloat.leb 1 opacity && negb (isFadingIn props)).

(** Two neighbouring binary64 numbers just above 0.95. *)
Definition below : float := 0x1.e7a9ce363ccd0p-1.
Definition above : float := 0x1.e7a9ce363ccd1p-1.

(** A fade-out over 100 ms. *)
Definition fadeOut100 : BlackScreenProps :=
  {| fadeInMs := None; fadeOutMs := Some 100; isFadingIn := false |}.

End VFX64.

(** ** Sample data *)

Module Sample.
Import PurchaseableAugmentation.
Local Open Scope Q_scope.

Definition mkAug (name : string) (baseCost baseRep : Q)
    (prereqs : list string) (owned : bool) : Augmentation.t :=
  {| Augmentation.name := name;
     Augmentation.baseCost := baseCost;
     Augmentation.baseRepRequirement := baseRep;
     Augmentation.prereqs := prereqs;
     Augmentation.owned := owned;
     Augmentation.info := Augmentation.InfoString "info";
     Augmentation.stats := "stats" |}.

Definition mkFaction (reputation priceMult repMult : Q) : Faction.t :=
  {| Faction.playerReputation := reputation;
     Faction.getInfo :=
       {| Faction.augmentationPriceMult := priceMult;
          Faction.augmentationRepRequirementMult := repMult |} |}.

Definition have (name : string) : IPlayer.PlayerOwnedAugmentation :=
  {| IPlayer.name := name; IPlayer.level := 1 |}.

Definition mkPlayer (money : Q) (installed queued : list string) : IPlayer.t :=
  {| IPlayer.money := money;
     IPlayer.augmentations := have <$> installed;
     IPlayer.queuedAugmentations := have <$> queued |}.

Definition mkProps (augName : string) (f : Faction.t) (pl : IPlayer.t) : IProps :=
  {| augName := augName; faction := f; p := pl; owned_prop := None |}.

Definition nfg : string := "NeuroFlux Governor".

(** An augmentation with a prerequisite, its prerequisite, and the
    repeatable one. *)
Definition targeting2 : Augmentation.t :=
  mkAug "Augmented Targeting II" 1000 500 ["Augmented Targeting I"] false.
Definition targeting1 : Augmentation.t :=
  mkAug "Augmented Targeting I" 1000 500 [] false.
Definition neuroflux : Augmentation.t := mkAug nfg 1000 500 [] true.

Definition catalog : gmap string Augmentation.t :=
  <[Augmentation.name targeting2 := targeting2]>
    (<[Augmentation.name targeting1 := targeting1]>
       (<[nfg := neuroflux]> ∅)).

Definition globals (suppress : bool) : Globals :=
  {| Augmentations := catalog;
     NeuroFluxGovernor := nfg;
     SuppressBuyAugmentationConfirmation := suppress;
     getNextNeurofluxLevel := 3 |}.

(** A row for a name the catalog does not hold. *)
Definition unknownProps : IProps :=
  mkProps "Unknown" (mkFaction 1200 1 1) (mkPlayer 5000 [] []).

(** The player holds Targeting II but not its prerequisite, with ample
    reputation and money. *)
Definition ownedWithoutPrereq : IProps :=
  mkProps "Augmented Targeting II" (mkFaction 1200 1 1)
          (mkPlayer 5000 ["Augmented Targeting II"] []).

(** The player holds Targeting I, with ample reputation and money. *)
Definition ownedPlain : IProps :=
  mkProps "Augmented Targeting I" (mkFaction 1200 1 1)
          (mkPlayer 5000 ["Augmented Targeting I"] []).

(** Targeting I not held; reputation met, money short. *)
Definition shortOfMoney : IProps :=
  mkProps "Augmented Targeting I" (mkFaction 1200 1 1) (mkPlayer 500 [] []).

(** Targeting I not held; money enough, reputation short. *)
Definition shortOfReputation : IProps :=
  mkProps "Augmented Targeting I" (mkFaction 100 1 1) (mkPlayer 5000 [] []).

(** Targeting I not held; reputation and money enough. *)
Definition affordable : IProps :=
  mkProps "Augmented Targeting I" (mkFaction 1200 1 1) (mkPlayer 5000 [] []).

(** Targeting II without its prerequisite, rich and poor. *)
Definition lockedRich : IProps :=
  mkProps "Augmented Targeting II" (mkFaction 1200 1 1) (mkPlayer 5000 [] []).
Definition lockedPoor : IProps :=
  mkProps "Augmented Targeting II" (mkFaction 0 3 7) (mkPlayer 0 [] ["x"]).

(** The repeatable augmentation, installed and queued already. *)
Definition neurofluxAgain : IProps :=
  mkProps nfg (mkFaction 1200 1 1) (mkPlayer 5000 [nfg] [nfg]).


(** Base cost 1000 at price multiplier 1.5, balance 1400. *)
Definition scenarioFunds : IProps :=
  mkProps "Augmented Targeting I" (mkFaction 1200 (3 # 2) 1) (mkPlayer 1400 [] []).

(** Base reputation 500 at reputation multiplier 2, reputation 1200. *)
Definition scenarioRep : IProps :=
  mkProps "Augmented Targeting I" (mkFaction 1200 1 2) (mkPlayer 0 [] []).

(** Base cost 1000 at price multiplier 0, balance -1. *)
Definition inDebt : IProps :=
  mkProps "Augmented Targeting I" (mkFaction 1200 0 1) (mkPlayer (-1) [] []).

End Sample.

(** * Properties *)

(** ** Boolean comparisons of numbers *)

Module NumberFacts.

Lemma ltb_true a b : Number.ltb a b = true <-> (a < b)%Q.
Proof.
  unfold Number.ltb. rewrite negb_true_iff.
  split.
  - intros H. apply Qnot_le_lt. intros Hle.
    apply Qle_bool_iff in Hle. congruence.
  - intros H. destruct (Qle_bool b a) eqn:E; [|reflexivity].
    apply Qle_bool_iff in E. exfalso. apply (Qlt_not_le _ _ H E).
Qed.

Lemma ltb_false a b : Number.ltb a b = false <-> (b <= a)%Q.
Proof.
  unfold Number.ltb. rewrite negb_false_iff. apply Qle_bool_iff.
Qed.

Lemma geb_true a b : Number.geb a b = true <-> (b <= a)%Q.
Proof. apply Qle_bool_iff. Qed.

Lemma geb_false a b : Number.geb a b = false <-> (a < b)%Q.
Proof.
  unfold Number.geb. split.
  - intros H. apply Qnot_le_lt. intros Hle.
    apply Qle_bool_iff in Hle. congruence.
  - intros H. destruct (Qle_bool b a) eqn:E; [|reflexivity].
    apply Qle_bool_iff in E. exfalso. apply (Qlt_not_le _ _ H E).
Qed.

Lemma neqb_true a b : Number.neqb a b = true <-> ~ (a == b)%Q.
Proof.
  unfold Number.neqb. rewrite negb_true_iff. split.
  - intros H Heq. apply Qeq_bool_iff in Heq. congruence.
  - intros H. destruct (Qeq_bool a b) eqn:E; [|reflexivity].
    apply Qeq_bool_iff in E. contradiction.
Qed.

Lemma neqb_false a b : Number.neqb a b = false <-> (a == b)%Q.
Proof.
  unfold Number.neqb. rewrite negb_false_iff. apply Qeq_bool_iff.
Qed.

End NumberFacts.

(** ** The fade overlay *)

Module VFXFacts.
Import VFX.
Local Open Scope Q_scope.

(** The three branches of [clamp01]. *)
Lemma clamp01_cases x :
  (x <= 0 /\ clamp01 x = 0)
  \/ (1 <= x /\ clamp01 x = 1)
  \/ ((0 < x /\ x < 1) /\ clamp01 x = x).
Proof.
  unfold clamp01.
  destruct (Qle_bool x 0) eqn:E0.
  - left. split; [now apply Qle_bool_iff | reflexivity].
  - destruct (Number.geb x 1) eqn:E1.
    + right; left. split; [now apply NumberFacts.geb_true | reflexivity].
    + right; right. apply NumberFacts.geb_false in E1.
      assert (0 < x).
      { apply Qnot_le_lt. intros Hle. apply Qle_bool_iff in Hle. congruence. }
      auto.
Qed.

Lemma clamp01_range x : 0 <= clamp01 x <= 1.
Proof.
  destruct (clamp01_cases x) as [[_ ->]|[[_ ->]|[[? ?] ->]]]; lra.
Qed.

(** With edges [0] and [1] the rescaling is the identity. *)
Lemma unit_edges x : (x - 0) / (1 - 0) == x.
Proof. field. Qed.

(** The cubic of the [return] statement, on the unit interval. *)
Lemma cubic_range t : 0 <= t <= 1 -> 0 <= t * t * (3 - 2 * t) <= 1.
Proof.
  intros [H0 H1]. split.
  - assert (0 <= t * t) by (apply Qmult_le_0_compat; lra).
    apply Qmult_le_0_compat; lra.
  - assert (E : 1 - t * t * (3 - 2 * t) == (1 - t) * (1 - t) * (1 + 2 * t)) by ring.
    assert (0 <= (1 - t) * (1 - t)) by (apply Qmult_le_0_compat; lra).
    assert (0 <= (1 - t) * (1 - t) * (1 + 2 * t)) by (apply Qmult_le_0_compat; lra).
    lra.
Qed.

Lemma smoothstep_range x : 0 <= smoothstep 0 1 x <= 1.
Proof. unfold smoothstep. apply cubic_range, clamp01_range. Qed.

Lemma smoothstep_low x : x <= 0 -> smoothstep 0 1 x == 0.
Proof.
  intros Hx. unfold smoothstep.
  pose proof (unit_edges x) as E.
  destruct (clamp01_cases ((x - 0) / (1 - 0))) as [[? ->]|[[? ->]|[[? ?] ->]]];
    lra.
Qed.

Lemma smoothstep_high x : 1 <= x -> smoothstep 0 1 x == 1.
Proof.
  intros Hx. unfold smoothstep.
  pose proof (unit_edges x) as E.
  destruct (clamp01_cases ((x - 0) / (1 - 0))) as [[? ->]|[[? ->]|[[? ?] ->]]];
    lra.
Qed.

Lemma renderedOpacity_eq props st :
  renderedOpacity props st = smoothstep 0 1 (opacity st).
Proof.
  unfold renderedOpacity, BlackScreen.
  destruct (negb (timer st) && negb (done0 props st));
    [destruct (isZero (fadeInMs props) && isFadingIn props);
     [|destruct (isZero (fadeOutMs props) && negb (isFadingIn props))]|];
    reflexivity.
Qed.

(** A fade-out over 40 ms: after five ticks the accumulator is at 5/4. *)
Example accumulator_overshoots :
  let props := {| fadeInMs := None; fadeOutMs := Some 40; isFadingIn := false |} in
  let o := ticks props 5 (opacity (initialState props)) in
  1 < o /\ renderedOpacity props {| opacity := o; timer := true |} == 1.
Proof. vm_compute. split; reflexivity. Qed.

(** A fade-in over 40 ms: after five ticks the accumulator is at -1/4. *)
Example accumulator_undershoots :
  let props := {| fadeInMs := Some 40; fadeOutMs := None; isFadingIn := true |} in
  let o := ticks props 5 (opacity (initialState props)) in
  o < 0 /\ renderedOpacity props {| opacity := o; timer := true |} == 0.
Proof. vm_compute. split; reflexivity. Qed.

(** C10, amended: [smoothstep(0, 1, x)] lies in [0, 1] for every number
    [x], is 0 for [x <= 0] and 1 for [x >= 1]; the overlay's opacity
    style is [smoothstep(0, 1, opacity)] and so stays in [0, 1] whatever
    value the opacity cell holds.  Nothing is stated about the order of
    two values: that depends on rounding. *)
Theorem smoothstep_opacity_in_unit_interval :
  forall x : Q,
    (0 <= smoothstep 0 1 x <= 1)
    /\ (x <= 0 -> smoothstep 0 1 x == 0)
    /\ (1 <= x -> smoothstep 0 1 x == 1)
    /\ (forall props st,
          renderedOpacity props st = smoothstep 0 1 (opacity st)
          /\ 0 <= renderedOpacity props st <= 1).
Proof.
  intros x. split; [apply smoothstep_range|].
  split; [apply smoothstep_low|].
  split; [apply smoothstep_high|].
  intros props st. split; [apply renderedOpacity_eq|].
  rewrite renderedOpacity_eq. apply smoothstep_range.
Qed.

Lemma smoothstep_opacity_in_unit_interval_witness :
  (- (1 # 4) <= 0 /\ smoothstep 0 1 (- (1 # 4)) == 0)
  /\ (1 <= 5 # 4 /\ smoothstep 0 1 (5 # 4) == 1).
Proof.
  split.
  - split; [discriminate|].
    apply (proj1 (proj2 (smoothstep_opacity_in_unit_interval (- (1 # 4))))).
    discriminate.
  - split; [discriminate|].
    apply (proj1 (proj2 (proj2 (smoothstep_opacity_in_unit_interval (5 # 4))))).
    discriminate.
Defined.

End VFXFacts.

(** ** The fade overlay on binary64 numbers *)

Module VFX64Facts.

Import VFX64.
Local Open Scope float_scope.

Example above_is_next : PrimFloat.next_up below = above.
Proof. vm_compute. reflexivity. Qed.

(** C10, as stated, fails on the numbers the code computes with:
    [below <= above], two neighbouring binary64 numbers, yet
    [smoothstep(0, 1, above) < smoothstep(0, 1, below)]. *)
Lemma smoothstep_order_reversed :
  PrimFloat.leb below above = true
  /\ PrimFloat.ltb (smoothstep 0 1 above) (smoothstep 0 1 below) = true
  /\ smoothstep 0 1 below = 0x1.fca3bd78b68abp-1
  /\ smoothstep 0 1 above = 0x1.fca3bd78b68aap-1.
Proof. repeat split; vm_compute; reflexivity. Qed.

(** On binary64 numbers the ends are exact: when the rescaled argument
    is at most 0 the result is 0, and when it is at least 1 the result is
    1, whatever the edges. *)
Lemma smoothstep_ends_exact (edge0 edge1 x : float) :
  (PrimFloat.leb ((x - edge0) / (edge1 - edge0)) 0 = true ->
   smoothstep edge0 edge1 x = 0)
  /\ (PrimFloat.leb ((x - edge0) / (edge1 - edge0)) 0 = false ->
      PrimFloat.leb 1 ((x - edge0) / (edge1 - edge0)) = true ->
      smoothstep edge0 edge1 x = 1).
Proof.
  unfold smoothstep, clamp01. split.
  - intros H. rewrite H. vm_compute. reflexivity.
  - intros H0 H1. rewrite H0, H1. vm_compute. reflexivity.
Qed.

(** Both values are still within [0, 1], and the ends are exact. *)
Example smoothstep_samples_in_range :
  PrimFloat.leb 0 (smoothstep 0 1 below) = true
  /\ PrimFloat.leb (smoothstep 0 1 above) 1 = true
  /\ smoothstep 0 1 (-0x1p-1074) = 0
  /\ smoothstep 0 1 neg_infinity = 0
  /\ smoothstep 0 1 0x1p-1074 = 0
  /\ smoothstep 0 1 0x1.fffffffffffffp-1 = 1
  /\ smoothstep 0 1 1 = 1
  /\ smoothstep 0 1 infinity = 1.
Proof. repeat split; vm_compute; reflexivity. Qed.

(** The accumulator is not its start plus [n] exact steps: ten firings
    of a 100 ms fade-out stop one unit in the last place short of 1, so
    the fade is done only after the eleventh. *)
Example ten_firings_fall_short :
  ticks fadeOut100 3 0 = 0x1.3333333333334p-2
  /\ ticks fadeOut100 10 0 = 0x1.fffffffffffffp-1
  /\ done0 fadeOut100 (ticks fadeOut100 10 0) = false
  /\ done0 fadeOut100 (ticks fadeOut100 11 0) = true.
Proof. repeat split; vm_compute; reflexivity. Qed.

End VFX64Facts.

(** ** The purchase row *)

Module RowFacts.
Import PurchaseableAugmentation.
Local Open Scope Q_scope.

(** An exception raised by one call passes through whatever follows it. *)
Lemma Throw_bind {A B} (k : A -> Completion B) err :
  (Throw err ≫= k) = Throw err.
Proof. reflexivity. Qed.

(** *** Ownership scan *)

Lemma ownedLoop_existsb props l b :
  ownedLoop props l b
  = existsb (fun a => String.eqb (IPlayer.name a) (augName props)) l || b.
Proof.
  induction l as [|a l IH]; simpl.
  - reflexivity.
  - destruct (String.eqb (IPlayer.name a) (augName props)); [reflexivity|].
    exact IH.
Qed.

Lemma owned_ownedOrQueued props :
  owned props = FactionHelpers.ownedOrQueued (p props) (augName props).
Proof.
  unfold owned, FactionHelpers.ownedOrQueued.
  rewrite !ownedLoop_existsb, existsb_app, orb_false_r.
  reflexivity.
Qed.

(** *** The block "Determine UI properties", branch by branch *)

Lemma ui_no_prereqs G aug props :
  hasPrereqs aug props = false ->
  uiProperties G aug props
  = {| disabled := true;
       status := Some (LOCKED_prereqs (Augmentation.prereqs aug));
       color := error |}.
Proof.
  intros H. unfold uiProperties. rewrite H. simpl.
  destruct (hasCost_ aug props); reflexivity.
Qed.

Lemma ui_owned G aug props :
  hasPrereqs aug props = true ->
  isNeuroFlux G aug = false ->
  Augmentation.owned aug || owned props = true ->
  uiProperties G aug props
  = {| disabled := true;
       status := None;
       color := if hasCost_ aug props then error else primary |}.
Proof.
  intros H1 H2 H3. unfold uiProperties. rewrite H1, H2, H3. simpl.
  destruct (hasCost_ aug props); reflexivity.
Qed.

Lemma ui_checked G aug props :
  hasPrereqs aug props = true ->
  negb (isNeuroFlux G aug) && (Augmentation.owned aug || owned props) = false ->
  uiProperties G aug props
  = if hasReputation aug props then
      {| disabled := hasCost_ aug props;
         status := Some (UNLOCKED (getRepCost aug props)
                           {| money := getMoneyCost aug props; player := p props |});
         color := if hasCost_ aug props then error else primary |}
    else
      {| disabled := true;
         status := Some (LOCKED_reputation (getRepCost aug props)
                           {| money := getMoneyCost aug props; player := p props |});
         color := error |}.
Proof.
  intros H1 H2. unfold uiProperties. rewrite H1, H2. simpl.
  destruct (hasReputation aug props), (hasCost_ aug props); reflexivity.
Qed.

(** A drawn button is red exactly when its click is ignored. *)
Lemma button_color_disabled G aug props :
  status (uiProperties G aug props) <> None ->
  (color (uiProperties G aug props) = error
   <-> disabled (uiProperties G aug props) = true).
Proof.
  unfold uiProperties.
  destruct (hasPrereqs aug props), (isNeuroFlux G aug),
    (Augmentation.owned aug), (owned props), (hasReputation aug props),
    (hasCost_ aug props); simpl; intros H; split; congruence.
Qed.

(** *** The component on a catalog entry *)

Lemma Requirements_found G aug props :
  Augmentations G !! augName props = Some aug ->
  Requirements G (requirementsProps aug props)
  = Normal
      (if hasPrereqs aug props then
         CostAndReputation
           (if negb (hasReputation aug props) && negb (hasCost_ aug props)
            then error else primary)
           {| money := getMoneyCost aug props; player := p props |}
           (getRepCost aug props)
       else RequiresPrereqs (Augmentation.prereqs aug)).
Proof.
  intros H. unfold Requirements. simpl. rewrite H.
  destruct (hasPrereqs aug props); reflexivity.
Qed.

Lemma render_found G aug props :
  Augmentations G !! augName props = Some aug ->
  PurchaseableAugmentation G props
  = Normal
      ([],
       Row {| buyCell :=
                if notOwnedProp props then
                  Some (match status (uiProperties G aug props) with
                        | Some _ =>
                            Some {| onClick :=
                                      handleClick G aug props
                                        (disabled (uiProperties G aug props));
                                    button_color := color (uiProperties G aug props) |}
                        | None => None
                        end)
                else None;
              nameCell := (btnTxt G aug, tooltip aug);
              requirementCells :=
                if notOwnedProp props then
                  Some (if hasPrereqs aug props then
                          CostAndReputation
                            (if negb (hasReputation aug props)
                                && negb (hasCost_ aug props)
                             then error else primary)
                            {| money := getMoneyCost aug props; player := p props |}
                            (getRepCost aug props)
                        else RequiresPrereqs (Augmentation.prereqs aug))
                else None |}).
Proof.
  intros H. unfold PurchaseableAugmentation. rewrite H.
  destruct (notOwnedProp props).
  - rewrite (Requirements_found G aug props H). reflexivity.
  - reflexivity.
Qed.

Lemma render_missing G props :
  Augmentations G !! augName props = None ->
  PurchaseableAugmentation G props
  = Throw ("aug " +:+ augName props +:+ " does not exists").
Proof. intros H. unfold PurchaseableAugmentation. rewrite H. reflexivity. Qed.

(** The second [aug == null] test is never reached: no call returns the
    empty fragment. *)
Lemma never_renders_fragment G props log :
  PurchaseableAugmentation G props <> Normal (log, Fragment).
Proof.
  destruct (Augmentations G !! augName props) as [aug|] eqn:E.
  - rewrite (render_found G aug props E). discriminate.
  - rewrite (render_missing G props E). discriminate.
Qed.

(** C1: for a name without a catalog entry the component evaluates
    nothing, but it does not return an empty element either: it throws
    ["aug Unknown does not exists"], and the branch that would log and
    return the empty fragment is unreachable. *)
Theorem missing_entry_throws :
  Augmentations (Sample.globals false) !! augName Sample.unknownProps = None
  /\ PurchaseableAugmentation (Sample.globals false) Sample.unknownProps
     = Throw "aug Unknown does not exists"
  /\ (forall log,
        PurchaseableAugmentation (Sample.globals false) Sample.unknownProps
        <> Normal (log, Fragment))
  /\ (forall B (k : list string * Element -> Completion B),
        (PurchaseableAugmentation (Sample.globals false) Sample.unknownProps ≫= k)
        = Throw "aug Unknown does not exists").
Proof.
  split; [reflexivity|].
  split; [reflexivity|].
  split; [intros log; apply never_renders_fragment|].
  intros B k. reflexivity.
Qed.

(** *** Ownership *)

(** C2, as stated, fails: Targeting II is not the repeatable entry, the
    player holds it and has ample reputation and money, yet with its
    prerequisite unmet the row is Locked, not AlreadyOwned. *)
Lemma owned_entry_locked_by_prereq :
  Augmentations (Sample.globals false) !! augName Sample.ownedWithoutPrereq
  = Some Sample.targeting2
  /\ isNeuroFlux (Sample.globals false) Sample.targeting2 = false
  /\ owned Sample.ownedWithoutPrereq = true
  /\ hasSufficientRep Sample.targeting2 Sample.ownedWithoutPrereq = true
  /\ hasSufficientFunds Sample.targeting2 Sample.ownedWithoutPrereq = true
  /\ displayState
       (uiProperties (Sample.globals false) Sample.targeting2
          Sample.ownedWithoutPrereq) = Locked
  /\ displayState
       (uiProperties (Sample.globals false) Sample.targeting2
          Sample.ownedWithoutPrereq) <> AlreadyOwned.
Proof.
  repeat split; try (vm_compute; reflexivity).
  vm_compute. discriminate.
Qed.

(** C2, amended: for every entry other than the repeatable one that the
    player owns or has queued (or whose [owned] flag is set), if the
    prerequisites are met the row is AlreadyOwned with purchase disabled
    and no button drawn, whatever the reputation and the funds; if a
    prerequisite is unmet the prerequisite lock comes first and the row
    is Locked, still with purchase disabled. *)
Theorem owned_entry_already_owned G aug props :
  isNeuroFlux G aug = false ->
  Augmentation.owned aug || owned props = true ->
  (hasPrereqs aug props = true ->
     displayState (uiProperties G aug props) = AlreadyOwned
     /\ status (uiProperties G aug props) = None
     /\ disabled (uiProperties G aug props) = true
     /\ handleClick G aug props (disabled (uiProperties G aug props)) = [])
  /\ (hasPrereqs aug props = false ->
     displayState (uiProperties G aug props) = Locked
     /\ disabled (uiProperties G aug props) = true
     /\ handleClick G aug props (disabled (uiProperties G aug props)) = []).
Proof.
  intros Hnf Hown. split; intros Hreq.
  - rewrite (ui_owned G aug props Hreq Hnf Hown). repeat split.
  - rewrite (ui_no_prereqs G aug props Hreq). repeat split.
Qed.

Lemma owned_entry_already_owned_witness :
  (isNeuroFlux (Sample.globals false) Sample.targeting1 = false
   /\ Augmentation.owned Sample.targeting1 || owned Sample.ownedPlain = true
   /\ hasPrereqs Sample.targeting1 Sample.ownedPlain = true)
  /\ displayState
       (uiProperties (Sample.globals false) Sample.targeting1 Sample.ownedPlain)
     = AlreadyOwned.
Proof.
  split; [repeat split|].
  apply (proj1 (owned_entry_already_owned (Sample.globals false)
                  Sample.targeting1 Sample.ownedPlain eq_refl eq_refl) eq_refl).
Defined.

(** *** Reputation and funds *)

(** C3: with the prerequisites met and the ownership branch not taken,
    the row is Unlocked only when (indeed exactly when) reputation and
    funds both suffice; a shortfall in either gives Locked, with the
    click ignored and the error color; the status names the reputation
    outcome and carries both amounts, and the two flags go to the
    requirement cells unchanged. *)
Theorem shortfall_locks G aug props :
  hasPrereqs aug props = true ->
  negb (isNeuroFlux G aug) && (Augmentation.owned aug || owned props) = false ->
  (displayState (uiProperties G aug props) = Unlocked
   <-> hasSufficientRep aug props = true /\ hasSufficientFunds aug props = true)
  /\ (hasSufficientRep aug props = false \/ hasSufficientFunds aug props = false ->
      displayState (uiProperties G aug props) = Locked
      /\ disabled (uiProperties G aug props) = true
      /\ color (uiProperties G aug props) = error
      /\ handleClick G aug props (disabled (uiProperties G aug props)) = [])
  /\ status (uiProperties G aug props)
     = Some ((if hasSufficientRep aug props then UNLOCKED else LOCKED_reputation)
               (getRepCost aug props)
               {| money := getMoneyCost aug props; player := p props |})
  /\ hasRep (requirementsProps aug props) = hasSufficientRep aug props
  /\ hasCost (requirementsProps aug props) = negb (hasSufficientFunds aug props)
  /\ rep (requirementsProps aug props) = getRepCost aug props
  /\ cost (requirementsProps aug props) = getMoneyCost aug props.
Proof.
  intros Hreq Hown.
  rewrite (ui_checked G aug props Hreq Hown).
  unfold hasSufficientRep, hasSufficientFunds, requirementsProps, displayState.
  simpl.
  destruct (hasReputation aug props), (hasCost_ aug props); simpl.
  all: repeat split; intros; intuition congruence.
Qed.

Lemma shortfall_locks_witness :
  (hasPrereqs Sample.targeting1 Sample.shortOfMoney = true
   /\ negb (isNeuroFlux (Sample.globals false) Sample.targeting1)
      && (Augmentation.owned Sample.targeting1 || owned Sample.shortOfMoney)
      = false
   /\ hasSufficientFunds Sample.targeting1 Sample.shortOfMoney = false)
  /\ displayState
       (uiProperties (Sample.globals false) Sample.targeting1 Sample.shortOfMoney)
     = Locked.
Proof.
  split; [repeat split|].
  apply (proj1 (proj2 (shortfall_locks (Sample.globals false)
                         Sample.targeting1 Sample.shortOfMoney eq_refl eq_refl))).
  right. reflexivity.
Defined.

(** *** Funds *)

Lemma hasSufficientFunds_true aug props :
  hasSufficientFunds aug props = true
  <-> ~ (~ Augmentation.baseCost aug == 0
         /\ IPlayer.money (p props) < getMoneyCost aug props).
Proof.
  unfold hasSufficientFunds, hasCost_. fold (getMoneyCost aug props).
  rewrite negb_true_iff, andb_false_iff.
  rewrite NumberFacts.neqb_false, NumberFacts.ltb_false.
  split.
  - intros [H|H] [H1 H2]; [contradiction|].
    apply (Qlt_not_le _ _ H2 H).
  - intros H.
    destruct (Qeq_dec (Augmentation.baseCost aug) 0) as [E|E]; [now left|].
    right. apply Qnot_lt_le. intros Hlt. apply H. split; assumption.
Qed.

Lemma free_entry_costs_nothing aug props :
  Augmentation.baseCost aug == 0 -> getMoneyCost aug props == 0.
Proof. intros E. unfold getMoneyCost. rewrite E. ring. Qed.

(** C4, as stated, fails: at price multiplier 0 the effective cost of a
    1000-cost entry is 0, so "effective cost > 0 and money < effective
    cost" is false, yet with a balance of -1 the funds flag is false. *)
Lemma funds_flag_not_by_effective_cost :
  ~ (hasSufficientFunds Sample.targeting1 Sample.inDebt = true
     <-> ~ (0 < getMoneyCost Sample.targeting1 Sample.inDebt
            /\ IPlayer.money (p Sample.inDebt)
               < getMoneyCost Sample.targeting1 Sample.inDebt)).
Proof.
  intros [_ H].
  assert (E : hasSufficientFunds Sample.targeting1 Sample.inDebt = true).
  { apply H. intros [Hpos _]. vm_compute in Hpos. discriminate. }
  vm_compute in E. discriminate.
Qed.

(** C4, amended: the funds flag is true unless the base cost is not 0
    and the balance is below the effective cost; for a balance that is
    not negative this is the same as "unless effective cost > 0 and
    balance < effective cost".  With base cost 1000, price multiplier
    1.5 and balance 1400 the effective cost is 1500 and the flag is
    false. *)
Theorem funds_flag aug props :
  (hasSufficientFunds aug props = true
   <-> ~ (~ Augmentation.baseCost aug == 0
          /\ IPlayer.money (p props) < getMoneyCost aug props))
  /\ (0 <= IPlayer.money (p props) ->
      (hasSufficientFunds aug props = true
       <-> ~ (0 < getMoneyCost aug props
              /\ IPlayer.money (p props) < getMoneyCost aug props)))
  /\ (getMoneyCost Sample.targeting1 Sample.scenarioFunds == 1500
      /\ hasSufficientFunds Sample.targeting1 Sample.scenarioFunds = false).
Proof.
  split; [apply hasSufficientFunds_true|]. split.
  - intros Hm. rewrite hasSufficientFunds_true. split.
    + intros H [Hpos Hlt]. apply H. split; [|exact Hlt].
      intros E. pose proof (free_entry_costs_nothing aug props E). lra.
    + intros H [_ Hlt]. apply H. split; [lra|exact Hlt].
  - split; reflexivity.
Qed.

Lemma funds_flag_witness :
  0 <= IPlayer.money (p Sample.scenarioFunds)
  /\ (hasSufficientFunds Sample.targeting1 Sample.scenarioFunds = true
      <-> ~ (0 < getMoneyCost Sample.targeting1 Sample.scenarioFunds
             /\ IPlayer.money (p Sample.scenarioFunds)
                < getMoneyCost Sample.targeting1 Sample.scenarioFunds)).
Proof.
  split; [discriminate|].
  apply (proj1 (proj2 (funds_flag Sample.targeting1 Sample.scenarioFunds))).
  discriminate.
Defined.

(** *** Prerequisites *)

Lemma unmet_hasPrereqs aug props :
  FactionHelpers.missingPrereqs aug (p props) <> [] <-> hasPrereqs aug props = false.
Proof.
  unfold hasPrereqs, FactionHelpers.hasAugmentationPrereqs.
  destruct (FactionHelpers.missingPrereqs aug (p props)); split; congruence.
Qed.

Lemma render_no_prereqs G aug props :
  Augmentations G !! augName props = Some aug ->
  hasPrereqs aug props = false ->
  PurchaseableAugmentation G props
  = Normal
      ([],
       Row {| buyCell :=
                if notOwnedProp props
                then Some (Some {| onClick := []; button_color := error |})
                else None;
              nameCell := (btnTxt G aug, tooltip aug);
              requirementCells :=
                if notOwnedProp props
                then Some (RequiresPrereqs (Augmentation.prereqs aug))
                else None |}).
Proof.
  intros Hin Hreq. rewrite (render_found G aug props Hin).
  rewrite (ui_no_prereqs G aug props Hreq), Hreq. reflexivity.
Qed.

(** C5: with a non-empty set of unmet prerequisites the row is Locked
    and purchase is disabled; a click does nothing; and neither the
    locals nor the rendered row depend on reputation, multipliers or
    funds: any other faction and player for which a prerequisite is
    unmet give the same result. *)
Theorem unmet_prereqs_lock G aug props :
  Augmentations G !! augName props = Some aug ->
  FactionHelpers.missingPrereqs aug (p props) <> [] ->
  displayState (uiProperties G aug props) = Locked
  /\ disabled (uiProperties G aug props) = true
  /\ handleClick G aug props (disabled (uiProperties G aug props)) = []
  /\ PurchaseableAugmentation G props
     = Normal
         ([],
          Row {| buyCell :=
                   if notOwnedProp props
                   then Some (Some {| onClick := []; button_color := error |})
                   else None;
                 nameCell := (btnTxt G aug, tooltip aug);
                 requirementCells :=
                   if notOwnedProp props
                   then Some (RequiresPrereqs (Augmentation.prereqs aug))
                   else None |})
  /\ (forall props',
        augName props' = augName props ->
        owned_prop props' = owned_prop props ->
        FactionHelpers.missingPrereqs aug (p props') <> [] ->
        uiProperties G aug props' = uiProperties G aug props
        /\ PurchaseableAugmentation G props' = PurchaseableAugmentation G props).
Proof.
  intros Hin Hmiss. apply unmet_hasPrereqs in Hmiss as Hreq.
  rewrite (ui_no_prereqs G aug props Hreq).
  rewrite (render_no_prereqs G aug props Hin Hreq).
  do 4 (split; [reflexivity|]).
  intros props' Hname Hown Hmiss'.
  apply unmet_hasPrereqs in Hmiss' as Hreq'.
  rewrite (ui_no_prereqs G aug props' Hreq').
  split; [reflexivity|].
  rewrite (render_no_prereqs G aug props'); [| congruence | assumption].
  unfold notOwnedProp. rewrite Hown. reflexivity.
Qed.

Lemma unmet_prereqs_lock_witness :
  (Augmentations (Sample.globals true) !! augName Sample.lockedRich
   = Some Sample.targeting2
   /\ FactionHelpers.missingPrereqs Sample.targeting2 (p Sample.lockedRich) <> []
   /\ FactionHelpers.missingPrereqs Sample.targeting2 (p Sample.lockedPoor) <> [])
  /\ displayState
       (uiProperties (Sample.globals true) Sample.targeting2 Sample.lockedRich)
     = Locked
  /\ PurchaseableAugmentation (Sample.globals true) Sample.lockedPoor
     = PurchaseableAugmentation (Sample.globals true) Sample.lockedRich.
Proof.
  assert (H1 : FactionHelpers.missingPrereqs Sample.targeting2 (p Sample.lockedRich) <> [])
    by discriminate.
  assert (H2 : FactionHelpers.missingPrereqs Sample.targeting2 (p Sample.lockedPoor) <> [])
    by discriminate.
  split; [repeat split; assumption|].
  pose proof (unmet_prereqs_lock (Sample.globals true) Sample.targeting2
                Sample.lockedRich eq_refl H1) as (Hd & _ & _ & _ & Hsame).
  split; [exact Hd|].
  exact (proj2 (Hsame Sample.lockedPoor eq_refl eq_refl H2)).
Defined.

(** *** Effective cost and reputation requirement *)

(** C6: the effective cost is base cost times the faction's price
    multiplier, the effective reputation requirement is base requirement
    times the faction's reputation multiplier, the reputation flag holds
    exactly when the player's reputation with the faction is at least
    the effective requirement, and these are the amounts the row shows.
    With base requirement 500, multiplier 2 and reputation 1200 the
    effective requirement is 1000 and the flag is true. *)
Theorem effective_values aug props :
  getMoneyCost aug props
  = Augmentation.baseCost aug
    * Faction.augmentationPriceMult (Faction.getInfo (faction props))
  /\ getRepCost aug props
     = Augmentation.baseRepRequirement aug
       * Faction.augmentationRepRequirementMult (Faction.getInfo (faction props))
  /\ (hasSufficientRep aug props = true
      <-> getRepCost aug props <= Faction.playerReputation (faction props))
  /\ (forall G,
        Augmentations G !! augName props = Some aug ->
        hasPrereqs aug props = true ->
        notOwnedProp props = true ->
        exists c row,
          PurchaseableAugmentation G props = Normal ([], Row row)
          /\ requirementCells row
             = Some (CostAndReputation c
                       {| money := Augmentation.baseCost aug
                                   * Faction.augmentationPriceMult
                                       (Faction.getInfo (faction props));
                          player := p props |}
                       (Augmentation.baseRepRequirement aug
                        * Faction.augmentationRepRequirementMult
                            (Faction.getInfo (faction props)))))
  /\ (getRepCost Sample.targeting1 Sample.scenarioRep == 1000
      /\ hasSufficientRep Sample.targeting1 Sample.scenarioRep = true).
Proof.
  split; [reflexivity|]. split; [reflexivity|]. split.
  - unfold hasSufficientRep, hasReputation. apply NumberFacts.geb_true.
  - split; [|split; reflexivity].
    intros G Hin Hreq Hshown.
    rewrite (render_found G aug props Hin), Hreq, Hshown.
    eexists _, _. split; reflexivity.
Qed.

Lemma effective_values_witness :
  (Augmentations (Sample.globals false) !! augName Sample.scenarioRep
   = Some Sample.targeting1
   /\ hasPrereqs Sample.targeting1 Sample.scenarioRep = true
   /\ notOwnedProp Sample.scenarioRep = true)
  /\ exists c row,
       PurchaseableAugmentation (Sample.globals false) Sample.scenarioRep
       = Normal ([], Row row)
       /\ requirementCells row
          = Some (CostAndReputation c
                    {| money := 1000 * 1; player := p Sample.scenarioRep |}
                    (500 * 2)).
Proof.
  split; [repeat split|].
  exact (proj1 (proj2 (proj2 (proj2
           (effective_values Sample.targeting1 Sample.scenarioRep))))
           (Sample.globals false) eq_refl eq_refl eq_refl).
Defined.

(** *** Scaling in the multipliers *)







(** *** The repeatable augmentation *)

(** C7: for the NeuroFlux Governor the ownership branch is never taken:
    the row is never AlreadyOwned, whatever the player holds or has
    queued and whatever the entry's [owned] flag; with the prerequisites
    met the locals are those of the reputation and funds checks, and the
    row is Unlocked exactly when both suffice. *)
Theorem neuroflux_reevaluated G aug props :
  isNeuroFlux G aug = true ->
  displayState (uiProperties G aug props) <> AlreadyOwned
  /\ status (uiProperties G aug props) <> None
  /\ (hasPrereqs aug props = true ->
      uiProperties G aug props
      = (if hasReputation aug props then
           {| disabled := hasCost_ aug props;
              status := Some (UNLOCKED (getRepCost aug props)
                                {| money := getMoneyCost aug props;
                                   player := p props |});
              color := if hasCost_ aug props then error else primary |}
         else
           {| disabled := true;
              status := Some (LOCKED_reputation (getRepCost aug props)
                                {| money := getMoneyCost aug props;
                                   player := p props |});
              color := error |})
      /\ (displayState (uiProperties G aug props) = Unlocked
          <-> hasSufficientRep aug props = true
              /\ hasSufficientFunds aug props = true)).
Proof.
  intros Hnf.
  assert (Hown : negb (isNeuroFlux G aug)
                 && (Augmentation.owned aug || owned props) = false)
    by (rewrite Hnf; reflexivity).
  destruct (hasPrereqs aug props) eqn:Hreq.
  - rewrite (ui_checked G aug props Hreq Hown).
    unfold hasSufficientRep, hasSufficientFunds, displayState.
    destruct (hasReputation aug props), (hasCost_ aug props); simpl;
      repeat split; intros; intuition congruence.
  - rewrite (ui_no_prereqs G aug props Hreq).
    split; [discriminate|]. split; [discriminate|].
    intros H. discriminate.
Qed.

Lemma neuroflux_reevaluated_witness :
  (isNeuroFlux (Sample.globals true) Sample.neuroflux = true
   /\ Augmentation.owned Sample.neuroflux = true
   /\ owned Sample.neurofluxAgain = true
   /\ hasPrereqs Sample.neuroflux Sample.neurofluxAgain = true)
  /\ displayState
       (uiProperties (Sample.globals true) Sample.neuroflux Sample.neurofluxAgain)
     = Unlocked.
Proof.
  split; [repeat split|].
  apply (proj2 (proj2 (proj2 (neuroflux_reevaluated (Sample.globals true)
                                Sample.neuroflux Sample.neurofluxAgain eq_refl))
                  eq_refl)).
  split; reflexivity.
Defined.

(** *** The click handler *)

(** C8: a click on a row that is not disabled has exactly two outcomes.
    With the skip-confirmation setting on, the purchase is made and the
    page re-rendered, and nothing else; with it off, the confirmation
    popup is created and nothing else, so no purchase is made by the
    click.  A click on a disabled row does nothing. *)
Theorem click_gate G aug props :
  handleClick G aug props false
  = (if SuppressBuyAugmentationConfirmation G
     then [purchaseAugmentation aug (faction props); rerender]
     else [createPopup "purchase-augmentation-popup" aug
             (faction props) (p props)])
  /\ (forall a f,
        In (purchaseAugmentation a f) (handleClick G aug props false)
        <-> SuppressBuyAugmentationConfirmation G = true
            /\ a = aug /\ f = faction props)
  /\ handleClick G aug props true = [].
Proof.
  unfold handleClick.
  destruct (SuppressBuyAugmentationConfirmation G); simpl.
  - split; [reflexivity|]. split; [|reflexivity].
    intros a f. split.
    + intros [H|[H|[]]]; [|discriminate]. inversion H. auto.
    + intros (_ & -> & ->). left. reflexivity.
  - split; [reflexivity|]. split; [|reflexivity].
    intros a f. split.
    + intros [H|[]]. discriminate.
    + intros (H & _). discriminate.
Qed.

(** On the sample row that is affordable the drawn button carries this
    handler. *)
Example affordable_button :
  PurchaseableAugmentation (Sample.globals false) Sample.affordable
  = Normal
      ([],
       Row {| buyCell :=
                Some (Some {| onClick :=
                                [createPopup "purchase-augmentation-popup"
                                   Sample.targeting1
                                   (faction Sample.affordable)
                                   (p Sample.affordable)];
                              button_color := primary |});
              nameCell := ("Augmented Targeting I", TooltipHtml "info" "stats");
              requirementCells :=
                Some (CostAndReputation primary
                        {| money := 1000 * 1; player := p Sample.affordable |}
                        (500 * 1)) |}).
Proof. reflexivity. Qed.

End RowFacts.

(** ** Rounding and remainders *)

Module MathFacts.

Local Open Scope Q_scope.

Lemma Qfloor_unique (x : Q) (n : Z) :
  inject_Z n <= x -> x < inject_Z (n + 1) -> Qfloor x = n.
Proof.
  intros Hle Hlt.
  pose proof (Qfloor_le x) as H1. pose proof (Qlt_floor x) as H2.
  assert (A : inject_Z n < inject_Z (Qfloor x + 1)) by lra.
  assert (B : inject_Z (Qfloor x) < inject_Z (n + 1)) by lra.
  rewrite <- Zlt_Qlt in A, B. lia.
Qed.

Lemma trunc_nonneg x : 0 <= x -> Math.trunc x = Qfloor x.
Proof.
  intros H. unfold Math.trunc.
  destruct (Qle_bool 0 x) eqn:E; [reflexivity|].
  apply Qle_bool_iff in H. congruence.
Qed.

Lemma trunc_neg x : x < 0 -> Math.trunc x = Qceiling x.
Proof.
  intros H. unfold Math.trunc.
  destruct (Qle_bool 0 x) eqn:E; [|reflexivity].
  apply Qle_bool_iff in E. lra.
Qed.

Lemma div_mul_cancel (a b : Q) : 0 < b -> a / b * b == a.
Proof. intros Hb. field. lra. Qed.

Lemma div_nonneg (a b : Q) : 0 <= a -> 0 < b -> 0 <= a / b.
Proof.
  intros Ha Hb. unfold Qdiv.
  apply Qmult_le_0_compat; [assumption|].
  apply Qlt_le_weak, Qinv_lt_0_compat, Hb.
Qed.

Lemma div_neg (a b : Q) : a < 0 -> 0 < b -> a / b < 0.
Proof.
  intros Ha Hb.
  assert (H : 0 <= (- a) / b) by (apply div_nonneg; lra).
  assert (E : (- a) / b == - (a / b)) by (field; lra).
  assert (N : ~ a / b == 0).
  { intros E0. pose proof (div_mul_cancel a b Hb) as C. rewrite E0 in C. lra. }
  lra.
Qed.

(** A non-negative dividend leaves a remainder in [0, b). *)
Lemma rem_nonneg (a b : Q) : 0 <= a -> 0 < b -> 0 <= Math.rem a b < b.
Proof.
  intros Ha Hb. unfold Math.rem.
  rewrite (trunc_nonneg (a / b) (div_nonneg a b Ha Hb)).
  pose proof (Qfloor_le (a / b)) as H1.
  pose proof (Qlt_floor (a / b)) as H2.
  rewrite inject_Z_plus in H2. change (inject_Z 1) with 1 in H2.
  pose proof (div_mul_cancel a b Hb) as E.
  set (q := a / b) in *. set (t := inject_Z (Qfloor q)) in *.
  assert (F : a - b * t == b * (q - t)) by (rewrite <- E; ring).
  assert (0 <= b * (q - t)) by (apply Qmult_le_0_compat; lra).
  assert (0 <= b * (1 - (q - t))) by (apply Qmult_le_0_compat; lra).
  assert (~ b * (1 - (q - t)) == 0).
  { intros Z0. apply Qmult_integral in Z0. destruct Z0; lra. }
  split; lra.
Qed.

(** A negative dividend leaves a remainder in (-b, 0]. *)
Lemma rem_neg (a b : Q) : a < 0 -> 0 < b -> - b < Math.rem a b <= 0.
Proof.
  intros Ha Hb. unfold Math.rem.
  rewrite (trunc_neg (a / b) (div_neg a b Ha Hb)).
  pose proof (Qle_ceiling (a / b)) as H1.
  pose proof (Qceiling_lt (a / b)) as H2.
  unfold Zminus in H2. rewrite inject_Z_plus, inject_Z_opp in H2.
  change (inject_Z 1) with 1 in H2.
  pose proof (div_mul_cancel a b Hb) as E.
  set (q := a / b) in *. set (t := inject_Z (Qceiling q)) in *.
  assert (F : a - b * t == - (b * (t - q))) by (rewrite <- E; ring).
  assert (0 <= b * (t - q)) by (apply Qmult_le_0_compat; lra).
  assert (0 <= b * (1 - (t - q))) by (apply Qmult_le_0_compat; lra).
  assert (~ b * (1 - (t - q)) == 0).
  { intros Z0. apply Qmult_integral in Z0. destruct Z0; lra. }
  split; lra.
Qed.

(** On integers, [floor(i / s)] and [i % s] are quotient and remainder. *)
Lemma floor_div_Z (i s : Z) :
  Math.floor (inject_Z i / inject_Z s) = inject_Z (i / s).
Proof. unfold Math.floor. rewrite <- Zdiv_Qdiv. reflexivity. Qed.

Lemma rem_Z (i s : Z) :
  (0 <= i)%Z -> (0 < s)%Z ->
  Math.rem (inject_Z i) (inject_Z s) == inject_Z (i mod s).
Proof.
  intros Hi Hs. unfold Math.rem.
  assert (Hi' : 0 <= inject_Z i) by (change 0 with (inject_Z 0); now rewrite <- Zle_Qle).
  assert (Hs' : 0 < inject_Z s) by (change 0 with (inject_Z 0); now rewrite <- Zlt_Qlt).
  rewrite (trunc_nonneg _ (div_nonneg _ _ Hi' Hs')).
  rewrite <- Zdiv_Qdiv.
  rewrite (Z.mod_eq i s) by lia.
  unfold Zminus. rewrite inject_Z_plus, inject_Z_opp, inject_Z_mult. ring.
Qed.

Lemma ceil_ge (x : Q) : x <= Math.ceil x.
Proof. apply Qle_ceiling. Qed.

Lemma min_le_l (a b : Q) : Math.min a b <= a.
Proof.
  unfold Math.min. destruct (Qle_bool a b) eqn:E; [lra|].
  destruct (Qlt_le_dec a b) as [H|H]; [|exact H].
  apply Qlt_le_weak, Qle_bool_iff in H. congruence.
Qed.

Lemma min_le_r (a b : Q) : Math.min a b <= b.
Proof.
  unfold Math.min. destruct (Qle_bool a b) eqn:E; [|lra].
  now apply Qle_bool_iff.
Qed.

Lemma min_cases (a b : Q) : Math.min a b = a \/ Math.min a b = b.
Proof. unfold Math.min. destruct (Qle_bool a b); auto. Qed.

End MathFacts.

(** ** The dead-pixel canvas *)

Module DeadPixelsFacts.

Import DeadPixels.
Local Open Scope Q_scope.

(** The hue step of a remainder taken modulo 360. *)
Lemma hue_step (r : Q) :
  - (360) < r -> r < 360 ->
  exists k : Z,
    (-3 <= k <= 2)%Z /\ (0 <= r -> (0 <= k)%Z)
    /\ Math.floor (r / HUE_STEPS) * HUE_STEPS == inject_Z (120 * k).
Proof.
  intros Hlo Hhi. unfold HUE_STEPS, Math.floor.
  assert (E : r / 120 * 120 == r) by field.
  pose proof (Qfloor_le (r / 120)) as H1.
  pose proof (Qlt_floor (r / 120)) as H2.
  rewrite inject_Z_plus in H2. change (inject_Z 1) with 1 in H2.
  exists (Qfloor (r / 120)).
  assert (A : inject_Z (Qfloor (r / 120)) < inject_Z 3)
    by (change (inject_Z 3) with 3; lra).
  assert (B : inject_Z (-4) < inject_Z (Qfloor (r / 120)))
    by (change (inject_Z (-4)) with (- (4)); lra).
  rewrite <- Zlt_Qlt in A, B.
  split; [lia|]. split.
  - intros Hr.
    assert (C : inject_Z (-1) < inject_Z (Qfloor (r / 120)))
      by (change (inject_Z (-1)) with (- (1)); lra).
    rewrite <- Zlt_Qlt in C. lia.
  - rewrite inject_Z_mult. change (inject_Z 120) with 120. ring.
Qed.

Lemma hue_argument_nonneg (now offset period : Q) :
  0 <= now -> 0 <= offset -> 0 < period ->
  0 <= now * MAX_HUE / period + offset * MAX_HUE.
Proof.
  intros Hn Ho Hp. unfold MAX_HUE.
  assert (0 <= now * 360 / period) by (apply MathFacts.div_nonneg; lra).
  lra.
Qed.

(** The hue is always one of six multiples of 120, and one of 0, 120 and
    240 when neither the clock nor the pixel's offset is negative. *)
Theorem getHue_steps (now offset period : Q) :
  0 < period ->
  (exists k : Z, (-3 <= k <= 2)%Z /\ getHue now offset period == inject_Z (120 * k))
  /\ (0 <= now -> 0 <= offset ->
      getHue now offset period == 0
      \/ getHue now offset period == 120
      \/ getHue now offset period == 240).
Proof.
  intros Hp. unfold getHue.
  set (v := now * MAX_HUE / period + offset * MAX_HUE).
  assert (R : - (360) < Math.rem v MAX_HUE /\ Math.rem v MAX_HUE < 360
              /\ (0 <= v -> 0 <= Math.rem v MAX_HUE)).
  { unfold MAX_HUE. destruct (Qlt_le_dec v 0) as [Hv|Hv].
    - pose proof (MathFacts.rem_neg v 360 Hv eq_refl). lra.
    - pose proof (MathFacts.rem_nonneg v 360 Hv eq_refl). lra. }
  destruct R as (Rlo & Rhi & Rpos).
  destruct (hue_step _ Rlo Rhi) as (k & Hk & Hk0 & E).
  split.
  - exists k. split; [exact Hk | exact E].
  - intros Hn Ho.
    assert (Hv : 0 <= v) by (apply hue_argument_nonneg; assumption).
    specialize (Hk0 (Rpos Hv)). rewrite E.
    assert (C : k = 0%Z \/ k = 1%Z \/ k = 2%Z) by lia.
    destruct C as [ -> | [ -> | -> ] ]; [left|right; left|right; right]; reflexivity.
Qed.

Lemma getHue_steps_witness :
  0 < 500
  /\ (getHue 1234 (1 # 3) 500 == 0
      \/ getHue 1234 (1 # 3) 500 == 120
      \/ getHue 1234 (1 # 3) 500 == 240).
Proof.
  split; [reflexivity|].
  apply (proj2 (getHue_steps 1234 (1 # 3) 500 eq_refl)); discriminate.
Defined.

(** *** The pixel grid *)

Lemma cell_of_index (s i : Z) :
  (0 <= i)%Z -> (0 < s)%Z ->
  fst (cell (inject_Z s) (inject_Z i)) == inject_Z (i mod s)
  /\ snd (cell (inject_Z s) (inject_Z i)) = inject_Z (i / s).
Proof.
  intros Hi Hs. unfold cell. simpl. split.
  - apply MathFacts.rem_Z; assumption.
  - apply MathFacts.floor_div_Z.
Qed.

Lemma cell_bounds (s i : Z) :
  (0 <= i)%Z -> (0 < s)%Z ->
  let x := fst (cell (inject_Z s) (inject_Z i)) in
  let y := snd (cell (inject_Z s) (inject_Z i)) in
  0 <= x /\ x <= inject_Z s - 1
  /\ 0 <= y
  /\ ((i < s * s)%Z -> y <= inject_Z s - 1).
Proof.
  intros Hi Hs x y.
  destruct (cell_of_index s i Hi Hs) as [Ex Ey].
  subst x y. rewrite Ex, Ey.
  pose proof (Z.mod_pos_bound i s Hs) as [M0 M1].
  pose proof (Z.div_pos i s Hi Hs) as D0.
  change 1 with (inject_Z 1). change 0 with (inject_Z 0).
  unfold Qminus. rewrite <- !inject_Z_opp, <- !inject_Z_plus.
  rewrite <- !Zle_Qle.
  repeat split; try lia.
  intros Hlt. assert (i / s < s)%Z by (apply Z.div_lt_upper_bound; lia). lia.
Qed.

(** For a whole pixel index [i >= 0] on a grid [s > 0] cells wide, the
    cell's column is in [0, s), its row is not negative, row * s + column
    gives the index back, and the row is below [s] when [i < s * s]. *)
Theorem cell_round_trip (s i : Z) :
  (0 <= i)%Z -> (0 < s)%Z ->
  let x := fst (cell (inject_Z s) (inject_Z i)) in
  let y := snd (cell (inject_Z s) (inject_Z i)) in
  y * inject_Z s + x == inject_Z i
  /\ 0 <= x /\ x <= inject_Z s - 1
  /\ 0 <= y
  /\ ((i < s * s)%Z -> y <= inject_Z s - 1).
Proof.
  intros Hi Hs x y.
  split; [|exact (cell_bounds s i Hi Hs)].
  destruct (cell_of_index s i Hi Hs) as [Ex Ey].
  subst x y. rewrite Ex, Ey.
  rewrite <- inject_Z_mult, <- inject_Z_plus, inject_Z_injective.
  rewrite (Z.div_mod i s) at 3 by lia. ring.
Qed.

Lemma cell_round_trip_witness :
  ((0 <= 7)%Z /\ (0 < 3)%Z)
  /\ snd (cell (inject_Z 3) (inject_Z 7)) * inject_Z 3
     + fst (cell (inject_Z 3) (inject_Z 7)) == inject_Z 7.
Proof.
  split; [split; lia|].
  apply (cell_round_trip 3 7); lia.
Defined.

(** Two whole pixel indices that land in the same cell are the same
    index: distinct dead pixels never paint the same cell. *)
Theorem cell_injective (s i j : Z) :
  (0 <= i)%Z -> (0 <= j)%Z -> (0 < s)%Z ->
  fst (cell (inject_Z s) (inject_Z i)) == fst (cell (inject_Z s) (inject_Z j)) ->
  snd (cell (inject_Z s) (inject_Z i)) == snd (cell (inject_Z s) (inject_Z j)) ->
  i = j.
Proof.
  intros Hi Hj Hs Hx Hy.
  destruct (cell_of_index s i Hi Hs) as [Exi Eyi].
  destruct (cell_of_index s j Hj Hs) as [Exj Eyj].
  rewrite Exi, Exj in Hx. rewrite Eyi, Eyj in Hy.
  rewrite inject_Z_injective in Hx, Hy.
  rewrite (Z.div_mod i s), (Z.div_mod j s) by lia.
  congruence.
Qed.

Lemma cell_injective_witness :
  ((0 <= 7)%Z /\ (0 <= 7)%Z /\ (0 < 3)%Z
   /\ fst (cell (inject_Z 3) (inject_Z 7)) == fst (cell (inject_Z 3) (inject_Z 7))
   /\ snd (cell (inject_Z 3) (inject_Z 7)) == snd (cell (inject_Z 3) (inject_Z 7)))
  /\ 7%Z = 7%Z.
Proof.
  split; [repeat split; lia|].
  apply (cell_injective 3 7 7); try lia; reflexivity.
Defined.

(** *** What [draw] paints *)

Lemma In_paintPixels clock size pw ph pixels k x y w h :
  In (Rect x y w h) (paintPixels clock size pw ph pixels k) ->
  exists i offset,
    In (i, offset) pixels
    /\ x = fst (cell size i) * pw /\ y = snd (cell size i) * ph
    /\ w = pw /\ h = ph.
Proof.
  revert k. induction pixels as [|[i offset] pixels IH]; intros k; simpl.
  - intros [].
  - intros [H|[H|[H|[H|H]]]]; try discriminate.
    + inversion H; subst. exists i, offset. repeat split. now left.
    + destruct (IH _ H) as (i' & o' & Hin & Hrest).
      exists i', o'. split; [now right | exact Hrest].
Qed.

Lemma In_draw_Rect clock canvas locals size pixels x y w h :
  In (Rect x y w h) (draw clock canvas locals size pixels) ->
  In (Rect x y w h)
     (paintPixels clock size (Math.ceil (width canvas / size))
        (Math.ceil (height canvas / size)) pixels 0).
Proof.
  unfold draw. simpl. intros [H|H]; [discriminate|].
  apply in_app_or in H. destruct H as [H|H]; [exact H|].
  simpl in H. destruct H as [H|[H|[H|[]]]]; discriminate.
Qed.

Lemma cells_cover (s : Z) (extent : Q) :
  (0 < s)%Z -> 0 <= extent ->
  0 <= Math.ceil (extent / inject_Z s)
  /\ extent <= inject_Z s * Math.ceil (extent / inject_Z s).
Proof.
  intros Hs He.
  assert (Hs' : 0 < inject_Z s)
    by (change 0 with (inject_Z 0); now rewrite <- Zlt_Qlt).
  pose proof (MathFacts.ceil_ge (extent / inject_Z s)) as C.
  pose proof (MathFacts.div_nonneg extent (inject_Z s) He Hs') as D.
  pose proof (MathFacts.div_mul_cancel extent (inject_Z s) Hs') as E.
  split; [lra|].
  assert (0 <= inject_Z s * (Math.ceil (extent / inject_Z s) - extent / inject_Z s))
    by (apply Qmult_le_0_compat; lra).
  lra.
Qed.

(** On a canvas of non-negative size with a whole grid width [s > 0] and
    whole pixel indices in [0, s * s), every rectangle [draw] paints is
    one grid cell: it has the cell's size, lies within the [s] by [s]
    grid of cells, and that grid covers the whole canvas. *)
Theorem draw_rects_in_grid clock canvas locals (s : Z) pixels :
  (0 < s)%Z -> 0 <= width canvas -> 0 <= height canvas ->
  (forall i offset, In (i, offset) pixels ->
     exists n : Z, i = inject_Z n /\ (0 <= n < s * s)%Z) ->
  let pixel_w := Math.ceil (width canvas / inject_Z s) in
  let pixel_h := Math.ceil (height canvas / inject_Z s) in
  (width canvas <= inject_Z s * pixel_w
   /\ height canvas <= inject_Z s * pixel_h)
  /\ forall x y w h,
       In (Rect x y w h) (draw clock canvas locals (inject_Z s) pixels) ->
       w = pixel_w /\ h = pixel_h
       /\ 0 <= x /\ x + w <= inject_Z s * pixel_w
       /\ 0 <= y /\ y + h <= inject_Z s * pixel_h.
Proof.
  intros Hs Hw Hh Hpix pixel_w pixel_h.
  destruct (cells_cover s (width canvas) Hs Hw) as [W0 W1].
  destruct (cells_cover s (height canvas) Hs Hh) as [H0 H1].
  fold pixel_w in W0, W1. fold pixel_h in H0, H1.
  split; [split; assumption|].
  intros x y w h Hin.
  apply In_draw_Rect, In_paintPixels in Hin.
  destruct Hin as (i & offset & Hin & -> & -> & -> & ->).
  fold pixel_w pixel_h.
  destruct (Hpix i offset Hin) as (n & -> & Hn0 & Hn1).
  destruct (cell_bounds s n Hn0 Hs) as (X0 & X1 & Y0 & Y1).
  specialize (Y1 Hn1).
  set (cx := fst (cell (inject_Z s) (inject_Z n))) in *.
  set (cy := snd (cell (inject_Z s) (inject_Z n))) in *.
  assert (0 <= cx * pixel_w) by (apply Qmult_le_0_compat; lra).
  assert (0 <= cy * pixel_h) by (apply Qmult_le_0_compat; lra).
  assert (0 <= (inject_Z s - 1 - cx) * pixel_w) by (apply Qmult_le_0_compat; lra).
  assert (0 <= (inject_Z s - 1 - cy) * pixel_h) by (apply Qmult_le_0_compat; lra).
  repeat split; try assumption; lra.
Qed.

Lemma draw_rects_in_grid_witness :
  ((0 < 4)%Z /\ 0 <= 10 /\ 0 <= 7)
  /\ forall x y w h,
       In (Rect x y w h)
          (draw (fun _ => 0) {| width := 10; height := 7 |} initialLocals
             (inject_Z 4) [(inject_Z 5, 0); (inject_Z 15, 1 # 2)]) ->
       0 <= x /\ x + w <= inject_Z 4 * Math.ceil (10 / inject_Z 4).
Proof.
  split; [repeat split; try lia; discriminate|].
  intros x y w h Hin.
  assert (Hpix : forall i offset,
             In (i, offset) [(inject_Z 5, 0); (inject_Z 15, 1 # 2)] ->
             exists n : Z, i = inject_Z n /\ (0 <= n < 4 * 4)%Z).
  { intros i offset [H|[H|[]]]; inversion H; subst;
      [exists 5%Z | exists 15%Z]; split; try reflexivity; lia. }
  destruct (proj2 (draw_rects_in_grid (fun _ => 0) {| width := 10; height := 7 |}
                     initialLocals 4 [(inject_Z 5, 0); (inject_Z 15, 1 # 2)]
                     eq_refl ltac:(discriminate) ltac:(discriminate) Hpix)
                  x y w h Hin) as (_ & _ & Hx0 & Hx1 & _).
  split; assumption.
Defined.

(** *** Compositing modes *)

Lemma runComposite_paintPixels clock size pw ph pixels k rest mode :
  runComposite mode (paintPixels clock size pw ph pixels k ++ rest)
  = (List.map (fun _ => (mode, Fill)) pixels ++ fst (runComposite mode rest),
     snd (runComposite mode rest)).
Proof.
  revert k. induction pixels as [|[i offset] pixels IH]; intros k; simpl.
  - destruct (runComposite mode rest); reflexivity.
  - rewrite IH. reflexivity.
Qed.

(** Whatever mode the context is in when [draw] starts, every pixel is
    filled in mode source-over, one fill per map entry; the logo is then
    drawn once, in mode destination-in; and the context is left in mode
    source-over. *)
Theorem draw_composite_modes clock canvas locals size pixels mode :
  runComposite mode (draw clock canvas locals size pixels)
  = (List.map (fun _ => ("source-over"%string, Fill)) pixels
     ++ [("destination-in"%string,
          DrawImage (center_x locals - logoSize locals * (1 # 2))
                    (center_y locals - logoSize locals * (1 # 2))
                    (logoSize locals) (logoSize locals))],
     "source-over"%string).
Proof.
  unfold draw. simpl. rewrite runComposite_paintPixels. reflexivity.
Qed.

(** *** The logo mask *)

(** After [setup] on a canvas of non-negative size the logo is drawn as a
    square whose side is the smaller canvas dimension, centred on the
    canvas and inside it, touching the canvas edge along the shorter
    dimension. *)
Theorem logo_box_inside_canvas clock canvas size pixels x y w h :
  0 <= width canvas -> 0 <= height canvas ->
  In (DrawImage x y w h) (draw clock canvas (setup canvas) size pixels) ->
  w = h
  /\ (w = width canvas \/ w = height canvas)
  /\ 0 <= w
  /\ 0 <= x /\ x + w <= width canvas
  /\ 0 <= y /\ y + h <= height canvas
  /\ x + w * (1 # 2) == width canvas * (1 # 2)
  /\ y + h * (1 # 2) == height canvas * (1 # 2)
  /\ (x == 0 \/ y == 0).
Proof.
  intros Hw Hh Hin. unfold draw in Hin. simpl in Hin.
  destruct Hin as [Hin|Hin]; [discriminate|].
  apply in_app_or in Hin. destruct Hin as [Hin|Hin].
  - exfalso. revert Hin. generalize 0%nat.
    induction pixels as [|[i offset] pixels IH]; intros k; simpl.
    + intros [].
    + intros [H|[H|[H|[H|H]]]]; try discriminate. exact (IH _ H).
  - simpl in Hin. destruct Hin as [Hin|[Hin|[Hin|[]]]]; try discriminate.
    inversion Hin; subst. clear Hin.
    pose proof (MathFacts.min_le_l (width canvas) (height canvas)) as L.
    pose proof (MathFacts.min_le_r (width canvas) (height canvas)) as R.
    pose proof (MathFacts.min_cases (width canvas) (height canvas)) as C.
    set (m := Math.min (width canvas) (height canvas)) in *.
    assert (M0 : 0 <= m) by (destruct C as [-> | ->]; assumption).
    split; [reflexivity|]. split; [exact C|]. split; [exact M0|].
    repeat split; try lra.
    destruct C as [E | E]; [left | right]; rewrite E; ring.
Qed.

Lemma logo_box_inside_canvas_witness :
  (0 <= 10 /\ 0 <= 7)
  /\ In (DrawImage ((10 * (1 # 2)) - 7 * (1 # 2)) ((7 * (1 # 2)) - 7 * (1 # 2)) 7 7)
        (draw (fun _ => 0) {| width := 10; height := 7 |}
           (setup {| width := 10; height := 7 |}) 4 [])
  /\ (10 * (1 # 2)) - 7 * (1 # 2) + 7 <= 10.
Proof.
  split; [split; discriminate|].
  assert (Hin : In (DrawImage ((10 * (1 # 2)) - 7 * (1 # 2))
                      ((7 * (1 # 2)) - 7 * (1 # 2)) 7 7)
                   (draw (fun _ => 0) {| width := 10; height := 7 |}
                      (setup {| width := 10; height := 7 |}) 4 []))
    by (right; right; left; reflexivity).
  split; [exact Hin|].
  exact (proj1 (proj2 (proj2 (proj2 (proj2
           (logo_box_inside_canvas (fun _ => 0) {| width := 10; height := 7 |}
              4 [] _ _ _ _ ltac:(discriminate) ltac:(discriminate) Hin)))))).
Defined.

End DeadPixelsFacts.

(** ** The fade overlay over time *)

Module BlackScreenRunFacts.

Import VFX BlackScreenRun.
Local Open Scope Q_scope.

Lemma natQ_S n : natQ (S n) == natQ n + 1.
Proof.
  unfold natQ. rewrite Nat2Z.inj_succ. unfold Z.succ.
  rewrite inject_Z_plus. reflexivity.
Qed.

Lemma natQ_nonneg n : 0 <= natQ n.
Proof.
  unfold natQ. change 0 with (inject_Z 0). rewrite <- Zle_Qle. lia.
Qed.

(** *** The accumulator *)

(** The accumulator in exact arithmetic, used for its sign only. *)
Lemma ticks_out props ms n o :
  isFadingIn props = false -> fadeOutMs props = Some ms ->
  ticks props n o == o + natQ n * (interval / ms).
Proof.
  intros Hdir Hms. revert o. induction n as [|n IH]; intros o.
  - simpl. unfold natQ. simpl. ring.
  - change (ticks props (S n) o) with (ticks props n (tick props o)).
    rewrite IH, natQ_S. unfold tick. rewrite Hdir, Hms. ring.
Qed.

Lemma ticks_in props ms n o :
  isFadingIn props = true -> fadeInMs props = Some ms ->
  ticks props n o == o + natQ n * (interval / - ms).
Proof.
  intros Hdir Hms. revert o. induction n as [|n IH]; intros o.
  - simpl. unfold natQ. simpl. ring.
  - change (ticks props (S n) o) with (ticks props n (tick props o)).
    rewrite IH, natQ_S. unfold tick. rewrite Hdir, Hms. ring.
Qed.

Lemma ticks_out_total props ms n o :
  ~ ms == 0 -> isFadingIn props = false -> fadeOutMs props = Some ms ->
  ticks props n o == o + natQ n * 10 / ms.
Proof.
  intros Hms Hdir Hdur.
  rewrite (ticks_out props ms n o Hdir Hdur). unfold interval. field. exact Hms.
Qed.

Lemma ticks_in_total props ms n o :
  ~ ms == 0 -> isFadingIn props = true -> fadeInMs props = Some ms ->
  ticks props n o == o - natQ n * 10 / ms.
Proof.
  intros Hms Hdir Hdur.
  rewrite (ticks_in props ms n o Hdir Hdur). unfold interval. field.
  intros E. apply Hms. lra.
Qed.

(** *** When a fade is finished *)

Lemma done0_out props st :
  isFadingIn props = false -> isUndefined (fadeOutMs props) = false ->
  done0 props st = true <-> 1 <= opacity st.
Proof.
  intros Hdir Hdur. unfold done0. rewrite Hdir, Hdur. simpl.
  rewrite andb_false_r, andb_true_r. simpl. apply NumberFacts.geb_true.
Qed.

Lemma done0_in props st :
  isFadingIn props = true ->
  done0 props st = true <-> opacity st <= 0.
Proof.
  intros Hdir. unfold done0. rewrite Hdir. simpl.
  rewrite andb_true_r, andb_false_r, orb_false_r. apply Qle_bool_iff.
Qed.

(** A fade with a negative duration never finishes: the accumulator moves
    away from its target, so the interval keeps firing and [onDone] is
    never called. *)
Theorem negative_fade_never_finishes props ms n :
  ms < 0 ->
  (isFadingIn props = false -> fadeOutMs props = Some ms ->
   done0 props {| opacity := ticks props n (opacity (initialState props));
                  timer := true |} = false)
  /\ (isFadingIn props = true -> fadeInMs props = Some ms ->
      done0 props {| opacity := ticks props n (opacity (initialState props));
                     timer := true |} = false).
Proof.
  intros Hms.
  assert (Hnz : ~ ms == 0) by lra.
  pose proof (ticks_out_total props ms n (opacity (initialState props)) Hnz)
    as Hout.
  pose proof (ticks_in_total props ms n (opacity (initialState props)) Hnz)
    as Hin.
  pose proof (natQ_nonneg n) as Hn.
  assert (Hstep : 0 <= natQ n * 10 / - ms).
  { apply MathFacts.div_nonneg; lra. }
  assert (E : natQ n * 10 / - ms == - (natQ n * 10 / ms)) by (field; lra).
  split; intros Hdir Hdur; apply not_true_is_false; intros Hd.
  - apply done0_out in Hd; [|assumption|rewrite Hdur; reflexivity].
    simpl opacity in Hd. rewrite (Hout Hdir Hdur) in Hd.
    unfold initialState in Hd. rewrite Hdir in Hd. simpl opacity in Hd. lra.
  - apply done0_in in Hd; [|assumption].
    simpl opacity in Hd. rewrite (Hin Hdir Hdur) in Hd.
    unfold initialState in Hd. rewrite Hdir in Hd. simpl opacity in Hd. lra.
Qed.

Lemma negative_fade_never_finishes_witness :
  (- (40) < 0)
  /\ done0 {| fadeInMs := None; fadeOutMs := Some (- (40)); isFadingIn := false |}
       {| opacity :=
            ticks {| fadeInMs := None; fadeOutMs := Some (- (40));
                     isFadingIn := false |}
              9 (opacity (initialState
                            {| fadeInMs := None; fadeOutMs := Some (- (40));
                               isFadingIn := false |}));
          timer := true |} = false.
Proof.
  split; [reflexivity|].
  apply (proj1 (negative_fade_never_finishes
                  {| fadeInMs := None; fadeOutMs := Some (- (40));
                     isFadingIn := false |}
                  (- (40)) 9 eq_refl)); reflexivity.
Defined.

(** *** What one call of the component issues *)

(** While an interval is installed, a call of the component issues nothing
    until the fade is finished (in particular no second interval); once
    it is finished the call clears the interval and the timer cell and
    calls [onDone] once, and the call after that issues nothing: [onDone]
    is not called again. *)
Theorem running_calls_onDone_once props st :
  timer st = true ->
  (done0 props st = false -> fst (BlackScreen props st) = [])
  /\ (done0 props st = true ->
      fst (BlackScreen props st) = [ClearInterval; ClearTimer; OnDone]
      /\ render props st = {| opacity := opacity st; timer := false |}
      /\ fst (BlackScreen props (render props st)) = []).
Proof.
  intros Ht. split; intros Hd.
  - unfold BlackScreen. rewrite Ht, Hd. reflexivity.
  - assert (A : fst (BlackScreen props st) = [ClearInterval; ClearTimer; OnDone])
      by (unfold BlackScreen; rewrite Ht, Hd; reflexivity).
    assert (B : render props st = {| opacity := opacity st; timer := false |})
      by (unfold render; rewrite A; reflexivity).
    split; [exact A|]. split; [exact B|].
    rewrite B. unfold BlackScreen. simpl timer.
    assert (D : done0 props {| opacity := opacity st; timer := false |} = true)
      by exact Hd.
    rewrite D. reflexivity.
Qed.

Lemma running_calls_onDone_once_witness :
  (timer {| opacity := 5 # 4; timer := true |} = true
   /\ done0 {| fadeInMs := None; fadeOutMs := Some 40; isFadingIn := false |}
        {| opacity := 5 # 4; timer := true |} = true)
  /\ fst (BlackScreen
            {| fadeInMs := None; fadeOutMs := Some 40; isFadingIn := false |}
            {| opacity := 5 # 4; timer := true |})
     = [ClearInterval; ClearTimer; OnDone].
Proof.
  split; [split; reflexivity|].
  apply (proj2 (running_calls_onDone_once
                  {| fadeInMs := None; fadeOutMs := Some 40; isFadingIn := false |}
                  {| opacity := 5 # 4; timer := true |} eq_refl) eq_refl).
Defined.

(** With no interval installed and the fade not finished, a call starts
    exactly one interval, unless the duration of the current direction is
    0: then no interval is started, the opacity is set to its final value
    (0 fading in, 1 fading out) and [onDone] is called in the same call. *)
Theorem idle_call_starts_or_finishes props st :
  timer st = false -> done0 props st = false ->
  fst (BlackScreen props st)
  = (if isZero (fadeInMs props) && isFadingIn props then
       [SetOpacity 0; ClearInterval; ClearTimer; OnDone]
     else if isZero (fadeOutMs props) && negb (isFadingIn props) then
       [SetOpacity 1; ClearInterval; ClearTimer; OnDone]
     else [SetInterval])
  /\ render props st
     = (if isZero (fadeInMs props) && isFadingIn props then
          {| opacity := 0; timer := false |}
        else if isZero (fadeOutMs props) && negb (isFadingIn props) then
          {| opacity := 1; timer := false |}
        else {| opacity := opacity st; timer := true |})
  /\ countOnDone (fst (BlackScreen props (render props st))) = 0%nat.
Proof.
  intros Ht Hd.
  assert (A : fst (BlackScreen props st)
              = (if isZero (fadeInMs props) && isFadingIn props then
                   [SetOpacity 0; ClearInterval; ClearTimer; OnDone]
                 else if isZero (fadeOutMs props) && negb (isFadingIn props) then
                   [SetOpacity 1; ClearInterval; ClearTimer; OnDone]
                 else [SetInterval])).
  { unfold BlackScreen. rewrite Ht, Hd. simpl.
    destruct (isZero (fadeInMs props) && isFadingIn props); [reflexivity|].
    destruct (isZero (fadeOutMs props) && negb (isFadingIn props)); reflexivity. }
  split; [exact A|].
  unfold render. rewrite A.
  destruct (isZero (fadeInMs props) && isFadingIn props) eqn:Zin.
  - split; [reflexivity|]. simpl fold_left.
    apply andb_true_iff in Zin as [_ Hdir].
    unfold BlackScreen, done0. rewrite Hdir. reflexivity.
  - destruct (isZero (fadeOutMs props) && negb (isFadingIn props)) eqn:Zout.
    + split; [reflexivity|]. simpl fold_left.
      apply andb_true_iff in Zout as [_ Hdir]. apply negb_true_iff in Hdir.
      unfold BlackScreen, done0. rewrite Hdir. reflexivity.
    + split; [reflexivity|]. simpl fold_left.
      unfold BlackScreen. simpl timer.
      assert (D : done0 props {| opacity := opacity st; timer := true |} = false)
        by exact Hd.
      rewrite D. reflexivity.
Qed.

Lemma idle_call_starts_or_finishes_witness :
  (timer (initialState {| fadeInMs := Some 0; fadeOutMs := None; isFadingIn := true |})
   = false
   /\ done0 {| fadeInMs := Some 0; fadeOutMs := None; isFadingIn := true |}
        (initialState {| fadeInMs := Some 0; fadeOutMs := None; isFadingIn := true |})
      = false)
  /\ fst (BlackScreen
            {| fadeInMs := Some 0; fadeOutMs := None; isFadingIn := true |}
            (initialState
               {| fadeInMs := Some 0; fadeOutMs := None; isFadingIn := true |}))
     = [SetOpacity 0; ClearInterval; ClearTimer; OnDone].
Proof.
  split; [split; reflexivity|].
  apply (proj1 (idle_call_starts_or_finishes
                  {| fadeInMs := Some 0; fadeOutMs := None; isFadingIn := true |}
                  (initialState
                     {| fadeInMs := Some 0; fadeOutMs := None; isFadingIn := true |})
                  eq_refl eq_refl)).
Defined.

(** A fade-out without a duration never happens: from the initial state
    the component issues no action at all, so the screen stays clear and
    [onDone] is never called, however often it is rendered or the state
    is left to itself. *)
Theorem fade_out_without_duration_is_inert props n :
  isFadingIn props = false -> fadeOutMs props = None ->
  Nat.iter n (render props) (initialState props) = initialState props
  /\ fst (BlackScreen props (initialState props)) = []
  /\ renderedOpacity props (initialState props) == 0.
Proof.
  intros Hdir Hdur.
  assert (A : fst (BlackScreen props (initialState props)) = []).
  { unfold BlackScreen, done0, initialState. rewrite Hdir, Hdur. reflexivity. }
  split; [|split; [exact A|]].
  - induction n as [|n IH]; [reflexivity|].
    simpl. rewrite IH. unfold render. rewrite A. reflexivity.
  - rewrite VFXFacts.renderedOpacity_eq. unfold initialState. rewrite Hdir.
    reflexivity.
Qed.

Lemma fade_out_without_duration_is_inert_witness :
  (isFadingIn {| fadeInMs := Some 100; fadeOutMs := None; isFadingIn := false |} = false
   /\ fadeOutMs {| fadeInMs := Some 100; fadeOutMs := None; isFadingIn := false |} = None)
  /\ fst (BlackScreen
            {| fadeInMs := Some 100; fadeOutMs := None; isFadingIn := false |}
            (initialState
               {| fadeInMs := Some 100; fadeOutMs := None; isFadingIn := false |}))
     = [].
Proof.
  split; [split; reflexivity|].
  apply (proj1 (proj2 (fade_out_without_duration_is_inert
                  {| fadeInMs := Some 100; fadeOutMs := None; isFadingIn := false |}
                  0 eq_refl eq_refl))).
Defined.

Lemma natQ_le n m : (n <= m)%nat -> natQ n <= natQ m.
Proof. intros H. unfold natQ. rewrite <- Zle_Qle. lia. Qed.

(** During a fade of [ms > 0] milliseconds the opacity accumulator never
    moves backwards: over any further firings of the interval callback
    it does not decrease while fading out and does not increase while
    fading in. *)
Theorem accumulator_monotone_in_time props ms n m o :
  0 < ms -> (n <= m)%nat ->
  (isFadingIn props = false -> fadeOutMs props = Some ms ->
   ticks props n o <= ticks props m o)
  /\ (isFadingIn props = true -> fadeInMs props = Some ms ->
      ticks props m o <= ticks props n o).
Proof.
  intros Hms Hnm.
  pose proof (natQ_le n m Hnm) as Hq.
  assert (Hstep : 0 <= interval / ms)
    by (apply MathFacts.div_nonneg; [discriminate | exact Hms]).
  assert (E : interval / - ms == - (interval / ms)) by (field; lra).
  assert (P : 0 <= (natQ m - natQ n) * (interval / ms))
    by (apply Qmult_le_0_compat; lra).
  split; intros Hdir Hdur.
  - rewrite (ticks_out props ms n o Hdir Hdur), (ticks_out props ms m o Hdir Hdur).
    lra.
  - rewrite (ticks_in props ms n o Hdir Hdur), (ticks_in props ms m o Hdir Hdur).
    rewrite E. lra.
Qed.

Lemma accumulator_monotone_in_time_witness :
  (0 < 100 /\ (3 <= 10)%nat)
  /\ ticks {| fadeInMs := None; fadeOutMs := Some 100; isFadingIn := false |} 3 0
     <= ticks {| fadeInMs := None; fadeOutMs := Some 100; isFadingIn := false |} 10 0.
Proof.
  split; [split; [reflexivity | lia]|].
  apply (proj1 (accumulator_monotone_in_time
                  {| fadeInMs := None; fadeOutMs := Some 100; isFadingIn := false |}
                  100 3 10 0 eq_refl ltac:(lia))); reflexivity.
Defined.

End BlackScreenRunFacts.

(** ** Clamping and the smooth step between arbitrary edges *)

Module SmoothstepFacts.

Import VFX.
Local Open Scope Q_scope.

Lemma clamp01_comp (a b : Q) : a == b -> clamp01 a == clamp01 b.
Proof.
  intros Hab.
  destruct (VFXFacts.clamp01_cases a) as [[? ->]|[[? ->]|[[? ?] ->]]];
    destruct (VFXFacts.clamp01_cases b) as [[? ->]|[[? ->]|[[? ?] ->]]]; lra.
Qed.

(** Clamping twice is clamping once; a number is left unchanged exactly
    when it lies in [0, 1]; and clamping the argument first does not
    change [smoothstep(0, 1, x)]. *)
Theorem clamp01_idempotent (x : Q) :
  clamp01 (clamp01 x) = clamp01 x
  /\ (clamp01 x == x <-> 0 <= x <= 1)
  /\ smoothstep 0 1 (clamp01 x) == smoothstep 0 1 x.
Proof.
  assert (I : clamp01 (clamp01 x) = clamp01 x).
  { destruct (VFXFacts.clamp01_cases x) as [[? E]|[[? E]|[[? ?] E]]]; rewrite E.
    - reflexivity.
    - reflexivity.
    - exact E. }
  split; [exact I|]. split.
  - destruct (VFXFacts.clamp01_cases x) as [[? ->]|[[? ->]|[[? ?] ->]]];
      split; intros; lra.
  - unfold smoothstep.
    assert (E : clamp01 ((clamp01 x - 0) / (1 - 0)) == clamp01 ((x - 0) / (1 - 0))).
    { rewrite (clamp01_comp _ _ (VFXFacts.unit_edges (clamp01 x))).
      rewrite (clamp01_comp _ _ (VFXFacts.unit_edges x)).
      rewrite I. reflexivity. }
    rewrite E. reflexivity.
Qed.

Lemma rescale_mono (e0 e1 x y : Q) :
  e0 < e1 -> x <= y -> (x - e0) / (e1 - e0) <= (y - e0) / (e1 - e0).
Proof.
  intros He Hxy.
  assert (0 <= (y - x) / (e1 - e0)) by (apply MathFacts.div_nonneg; lra).
  assert ((y - e0) / (e1 - e0) - (x - e0) / (e1 - e0) == (y - x) / (e1 - e0))
    by (field; lra).
  lra.
Qed.

Lemma rescale_at_edges (e0 e1 : Q) :
  ~ e0 == e1 ->
  (e0 - e0) / (e1 - e0) == 0 /\ (e1 - e0) / (e1 - e0) == 1.
Proof. intros He. split; field; lra. Qed.

(** Between edges [edge0 < edge1], [smoothstep] stays in [0, 1], is 0 up
    to [edge0] and 1 from [edge1] on. *)
Theorem smoothstep_between_edges (edge0 edge1 x : Q) :
  edge0 < edge1 ->
  0 <= smoothstep edge0 edge1 x <= 1
  /\ (x <= edge0 -> smoothstep edge0 edge1 x == 0)
  /\ (edge1 <= x -> smoothstep edge0 edge1 x == 1).
Proof.
  intros He.
  assert (Hne : ~ edge0 == edge1) by lra.
  destruct (rescale_at_edges edge0 edge1 Hne) as [A0 A1].
  unfold smoothstep.
  split; [apply VFXFacts.cubic_range, VFXFacts.clamp01_range|].
  split.
  - intros Hx. pose proof (rescale_mono edge0 edge1 x edge0 He Hx) as M.
    destruct (VFXFacts.clamp01_cases ((x - edge0) / (edge1 - edge0)))
      as [[? ->]|[[? ->]|[[? ?] ->]]]; lra.
  - intros Hx. pose proof (rescale_mono edge0 edge1 edge1 x He Hx) as M.
    destruct (VFXFacts.clamp01_cases ((x - edge0) / (edge1 - edge0)))
      as [[? ->]|[[? ->]|[[? ?] ->]]]; lra.
Qed.

Lemma smoothstep_between_edges_witness :
  (10 < 20 /\ 23 >= 20)
  /\ smoothstep 10 20 23 == 1.
Proof.
  split; [split; [reflexivity|discriminate]|].
  apply (proj2 (proj2 (smoothstep_between_edges 10 20 23 eq_refl))).
  discriminate.
Defined.

End SmoothstepFacts.

(** ** The glitch text *)

Module GlitchyTypographyFacts.

Import GlitchyTypography.
Local Open Scope Q_scope.

Lemma scaled_draw_within (r m : Q) :
  0 <= r -> r < 1 -> 0 < m -> - m <= r * 2 * m - m /\ r * 2 * m - m < m.
Proof.
  intros H0 H1 Hm.
  assert (0 <= r * m) by (apply Qmult_le_0_compat; lra).
  assert (0 <= (1 - r) * m) by (apply Qmult_le_0_compat; lra).
  assert (~ (1 - r) * m == 0).
  { intros Z0. apply Qmult_integral in Z0. destruct Z0; lra. }
  split; lra.
Qed.

Lemma mapOffsets_spec rnd m colors k :
  length (fst (mapOffsets rnd m colors k)) = length colors
  /\ snd (mapOffsets rnd m colors k) = (k + 3 * length colors)%nat
  /\ (unitDraws rnd -> 0 < m -> Forall (within m) (fst (mapOffsets rnd m colors k))).
Proof.
  revert k. induction colors as [|c colors IH]; intros k; simpl.
  - repeat split; [lia | constructor].
  - specialize (IH (S (S (S k)))).
    destruct (mapOffsets rnd m colors (S (S (S k)))) as [rest k'] eqn:E.
    simpl in *. destruct IH as (L & K & B).
    split; [congruence|]. split; [lia|].
    intros Hr Hm. constructor; [|exact (B Hr Hm)].
    destruct (Hr k) as [A0 A1]. destruct (Hr (S k)) as [B0 B1].
    split; simpl; apply scaled_draw_within; assumption.
Qed.

(** With draws in [0, 1) and [maxOffset > 0], every offset the callback
    hands to [setLastOffsets] has both coordinates in
    [-maxOffset, maxOffset). *)
Theorem offsets_within_maxOffset props rnd k offsets k' :
  unitDraws rnd -> 0 < maxOffset props ->
  onInterval props rnd k = (Some offsets, k') ->
  Forall (within (maxOffset props)) offsets.
Proof.
  intros Hr Hm. unfold onInterval.
  destruct (Number.ltb (probability props) (rnd k)); [discriminate|].
  pose proof (mapOffsets_spec rnd (maxOffset props) (colors props) (S k))
    as (_ & _ & B).
  destruct (mapOffsets rnd (maxOffset props) (colors props) (S k)) as [offs k2].
  intros H. inversion H; subst. exact (B Hr Hm).
Qed.

(** The callback either skips the update after one draw, when that draw
    exceeds [probability], or replaces the offsets by one per color after
    one draw plus three per color. *)
Lemma onInterval_cases props rnd k :
  (probability props < rnd k
   /\ onInterval props rnd k = (None, S k))
  \/ (rnd k <= probability props
      /\ exists offsets,
           onInterval props rnd k
           = (Some offsets, (S k + 3 * length (colors props))%nat)
           /\ length offsets = length (colors props)).
Proof.
  unfold onInterval.
  destruct (Number.ltb (probability props) (rnd k)) eqn:E.
  - left. apply NumberFacts.ltb_true in E. split; [exact E | reflexivity].
  - right. apply NumberFacts.ltb_false in E. split; [exact E|].
    pose proof (mapOffsets_spec rnd (maxOffset props) (colors props) (S k))
      as (L & K & _).
    destruct (mapOffsets rnd (maxOffset props) (colors props) (S k)) as [offs k2].
    simpl in *. exists offs. subst k2. split; [reflexivity | exact L].
Qed.

Lemma nextOffsets_length closure rnd k last :
  length (fst (nextOffsets closure rnd k last)) = length last
  \/ length (fst (nextOffsets closure rnd k last)) = length (colors closure).
Proof.
  unfold nextOffsets.
  destruct (onInterval_cases closure rnd k) as [[_ E]|(_ & offs & E & L)];
    rewrite E; simpl; auto.
Qed.

Lemma firings_length closure rnd n k last :
  length (fst (firings closure rnd n k last)) = length last
  \/ length (fst (firings closure rnd n k last)) = length (colors closure).
Proof.
  revert k last. induction n as [|n IH]; intros k last; simpl.
  - left. reflexivity.
  - pose proof (nextOffsets_length closure rnd k last) as HN.
    destruct (nextOffsets closure rnd k last) as [last' k'].
    simpl in HN. destruct (IH k' last') as [E|E]; [|right; exact E].
    rewrite E. exact HN.
Qed.

Lemma colorLookups_defined colors last :
  (length last <= length colors)%nat ->
  Forall is_Some (colorLookups colors last).
Proof.
  intros HL. unfold colorLookups. apply Forall_forall. intros o Ho.
  apply list_elem_of_lookup in Ho. destruct Ho as [i Hi].
  rewrite list_lookup_imap in Hi.
  destruct (last !! i) as [off|] eqn:E; [|discriminate].
  simpl in Hi. inversion Hi; subst.
  apply lookup_lt_is_Some. apply lookup_lt_Some in E. lia.
Qed.

(** The state cell [lastOffsets] starts with one offset per color of the
    mounting render, and after any number of firings of one interval it
    has either the length it had when those firings began or one offset
    per color of the props that interval's callback closed over.  A
    render whose [colors] are at least as many as both finds [colors[i]]
    defined for every offset; a render with fewer [colors] than offsets
    reads [colors[i]] as [undefined]. *)
Theorem lastOffsets_follow_closure_colors (mount closure : Props) rnd n k
    (last0 : list Offset) :
  length (initialOffsets mount) = length (colors mount)
  /\ (let last := fst (firings closure rnd n k last0) in
      (length last = length last0 \/ length last = length (colors closure))
      /\ (forall current : list string,
            (length last0 <= length current)%nat ->
            (length (colors closure) <= length current)%nat ->
            Forall is_Some (colorLookups current last))
      /\ (forall current : list string,
            (length current < length last)%nat ->
            colorLookups current last !! length current = Some None)).
Proof.
  split; [unfold initialOffsets; apply length_map|].
  intros last.
  pose proof (firings_length closure rnd n k last0) as L. fold last in L.
  split; [exact L|]. split.
  - intros current Hm Hc. apply colorLookups_defined.
    destruct L as [-> | ->]; assumption.
  - intros current Hlt. unfold colorLookups. rewrite list_lookup_imap.
    destruct (lookup_lt_is_Some_2 last (length current) Hlt) as [off E].
    rewrite E. simpl. f_equal. apply lookup_ge_None. lia.
Qed.

Lemma lastOffsets_follow_closure_colors_witness :
  ((length (initialOffsets twoColors)
    <= length ["#ff0000"; "#00ffff"; "#ffffff"]%string)%nat
   /\ (length (colors twoColors)
       <= length ["#ff0000"; "#00ffff"; "#ffffff"]%string)%nat
   /\ (length ["#ff0000"%string]
       < length (fst (firings twoColors half 2 0 (initialOffsets twoColors))))%nat)
  /\ Forall is_Some
       (colorLookups ["#ff0000"; "#00ffff"; "#ffffff"]%string
          (fst (firings twoColors half 2 0 (initialOffsets twoColors))))
  /\ colorLookups ["#ff0000"%string]
       (fst (firings twoColors half 2 0 (initialOffsets twoColors))) !! 1%nat
     = Some None.
Proof.
  assert (H1 : (length (initialOffsets twoColors)
                <= length ["#ff0000"; "#00ffff"; "#ffffff"]%string)%nat)
    by (simpl; lia).
  assert (H2 : (length (colors twoColors)
                <= length ["#ff0000"; "#00ffff"; "#ffffff"]%string)%nat)
    by (simpl; lia).
  assert (H3 : (length ["#ff0000"%string]
                < length (fst (firings twoColors half 2 0
                                 (initialOffsets twoColors))))%nat)
    by (vm_compute; lia).
  split; [repeat split; assumption|].
  pose proof (proj2 (lastOffsets_follow_closure_colors twoColors twoColors half 2 0
                       (initialOffsets twoColors)))
    as (_ & Hdef & Hundef).
  split.
  - apply Hdef; assumption.
  - exact (Hundef ["#ff0000"%string] H3).
Defined.

(** With draws in [0, 1): a [probability] of 1 or more updates the
    offsets at every firing, and a negative [probability] never does. *)
Theorem probability_extremes props rnd k :
  unitDraws rnd ->
  (1 <= probability props -> fst (onInterval props rnd k) <> None)
  /\ (probability props < 0 -> onInterval props rnd k = (None, S k)).
Proof.
  intros Hr. destruct (Hr k) as [R0 R1].
  destruct (onInterval_cases props rnd k) as [[Hlt E]|(Hle & offs & E & _)];
    rewrite E; simpl; split; intros Hp; try lra; try reflexivity; discriminate.
Qed.

Lemma half_unitDraws : unitDraws half.
Proof. intros n. split; [discriminate | reflexivity]. Qed.

Lemma offsets_within_maxOffset_witness :
  (unitDraws half /\ 0 < maxOffset twoColors)
  /\ Forall (within (maxOffset twoColors))
       (fst (mapOffsets half (maxOffset twoColors) (colors twoColors) 1)).
Proof.
  split; [split; [exact half_unitDraws | reflexivity]|].
  exact (offsets_within_maxOffset twoColors half 0 _ _
           half_unitDraws eq_refl eq_refl).
Defined.

Lemma probability_extremes_witness :
  (unitDraws half /\ 1 <= probability twoColors)
  /\ fst (onInterval twoColors half 0) <> None.
Proof.
  split; [split; [exact half_unitDraws | discriminate]|].
  apply (proj1 (probability_extremes twoColors half 0 half_unitDraws)).
  discriminate.
Defined.

End GlitchyTypographyFacts.

(** ** More on the purchase row *)

Module RowMoreFacts.

Import PurchaseableAugmentation.
Local Open Scope Q_scope.

(** The component throws exactly when the name is not in the catalog;
    for a name in the catalog it returns a table row and writes nothing
    to the console, the nested [Requirements] never throwing. *)
Theorem throws_iff_missing G props :
  ((exists err, PurchaseableAugmentation G props = Throw err)
   <-> Augmentations G !! augName props = None)
  /\ ((exists row, PurchaseableAugmentation G props = Normal ([], Row row))
      <-> is_Some (Augmentations G !! augName props)).
Proof.
  destruct (Augmentations G !! augName props) as [aug|] eqn:E.
  - rewrite (RowFacts.render_found G aug props E). split; split.
    + intros [err H]. discriminate.
    + discriminate.
    + intros _. eauto.
    + intros _. eexists. reflexivity.
  - rewrite (RowFacts.render_missing G props E). split; split.
    + reflexivity.
    + intros _. eexists. reflexivity.
    + intros [row H]. discriminate.
    + intros [x H]. discriminate.
Qed.

Lemma handleClick_nil G aug props d :
  handleClick G aug props d = [] <-> d = true.
Proof.
  unfold handleClick. destruct d; [tauto|].
  destruct (SuppressBuyAugmentationConfirmation G); simpl; split; discriminate.
Qed.

(** The row returned for a catalog entry, read back from the result. *)
Lemma row_of G aug props log row :
  Augmentations G !! augName props = Some aug ->
  PurchaseableAugmentation G props = Normal (log, Row row) ->
  log = []
  /\ buyCell row
     = (if notOwnedProp props then
          Some (match status (uiProperties G aug props) with
                | Some _ =>
                    Some {| onClick :=
                              handleClick G aug props
                                (disabled (uiProperties G aug props));
                            button_color := color (uiProperties G aug props) |}
                | None => None
                end)
        else None)
  /\ nameCell row = (btnTxt G aug, tooltip aug)
  /\ requirementCells row
     = (if notOwnedProp props then
          Some (if hasPrereqs aug props then
                  CostAndReputation
                    (if negb (hasReputation aug props) && negb (hasCost_ aug props)
                     then error else primary)
                    {| money := getMoneyCost aug props; player := p props |}
                    (getRepCost aug props)
                else RequiresPrereqs (Augmentation.prereqs aug))
        else None).
Proof.
  intros Hin H. rewrite (RowFacts.render_found G aug props Hin) in H.
  inversion H; subst. repeat split.
Qed.

Lemma row_requirements G aug props log row :
  Augmentations G !! augName props = Some aug ->
  PurchaseableAugmentation G props = Normal (log, Row row) ->
  requirementCells row
  = (if notOwnedProp props then
       Some (if hasPrereqs aug props then
               CostAndReputation
                 (if negb (hasReputation aug props) && negb (hasCost_ aug props)
                  then error else primary)
                 {| money := getMoneyCost aug props; player := p props |}
                 (getRepCost aug props)
             else RequiresPrereqs (Augmentation.prereqs aug))
     else None).
Proof.
  intros Hin Hres. exact (proj2 (proj2 (proj2 (row_of G aug props log row Hin Hres)))).
Qed.

(** A click on the drawn button has an effect only when the prerequisites
    are met, the reputation suffices, the funds suffice and the ownership
    branch was not taken; and when it has one, the effect concerns this
    augmentation and this faction only. *)
Theorem click_effect_requires_eligibility G aug props log row b e :
  Augmentations G !! augName props = Some aug ->
  PurchaseableAugmentation G props = Normal (log, Row row) ->
  buyCell row = Some (Some b) ->
  In e (onClick b) ->
  (hasPrereqs aug props = true
   /\ hasReputation aug props = true
   /\ hasCost_ aug props = false
   /\ negb (isNeuroFlux G aug) && (Augmentation.owned aug || owned props) = false)
  /\ (e = purchaseAugmentation aug (faction props)
      \/ e = rerender
      \/ e = createPopup "purchase-augmentation-popup" aug (faction props) (p props)).
Proof.
  intros Hin Hres Hbuy He.
  destruct (row_of G aug props log row Hin Hres) as (_ & Hb & _ & _).
  rewrite Hb in Hbuy.
  destruct (notOwnedProp props); [|discriminate].
  destruct (status (uiProperties G aug props)) eqn:Hs; [|discriminate].
  inversion Hbuy; subst b; clear Hbuy. simpl in He.
  destruct (disabled (uiProperties G aug props)) eqn:Hd;
    [unfold handleClick in He; simpl in He; contradiction|].
  split.
  - revert Hs Hd. unfold uiProperties.
    destruct (hasPrereqs aug props), (isNeuroFlux G aug),
      (Augmentation.owned aug), (owned props), (hasReputation aug props),
      (hasCost_ aug props); simpl; intros; try discriminate; repeat split.
  - unfold handleClick in He.
    destruct (SuppressBuyAugmentationConfirmation G); simpl in He;
      intuition auto.
Qed.

Lemma click_effect_requires_eligibility_witness :
  (Augmentations (Sample.globals true) !! augName Sample.affordable
   = Some Sample.targeting1)
  /\ hasReputation Sample.targeting1 Sample.affordable = true
  /\ hasCost_ Sample.targeting1 Sample.affordable = false.
Proof.
  split; [reflexivity|].
  pose proof (click_effect_requires_eligibility (Sample.globals true)
                Sample.targeting1 Sample.affordable [] _ _
                (purchaseAugmentation Sample.targeting1 (faction Sample.affordable))
                eq_refl eq_refl eq_refl ltac:(left; reflexivity))
    as ((_ & Hr & Hc & _) & _).
  split; assumption.
Defined.

(** A purchase button is drawn exactly when [props.owned] is falsy and
    either a prerequisite is unmet or the ownership branch is not taken
    (the entry is the repeatable one, or it is neither flagged owned nor
    installed nor queued). *)
Theorem button_drawn_iff G aug props log row :
  Augmentations G !! augName props = Some aug ->
  PurchaseableAugmentation G props = Normal (log, Row row) ->
  ((exists b, buyCell row = Some (Some b))
   <-> notOwnedProp props = true
       /\ (hasPrereqs aug props = false
           \/ negb (isNeuroFlux G aug)
              && (Augmentation.owned aug || owned props) = false)).
Proof.
  intros Hin Hres.
  destruct (row_of G aug props log row Hin Hres) as (_ & Hb & _ & _).
  rewrite Hb. clear Hb.
  destruct (notOwnedProp props).
  - unfold uiProperties.
    destruct (hasPrereqs aug props), (isNeuroFlux G aug),
      (Augmentation.owned aug), (owned props), (hasReputation aug props),
      (hasCost_ aug props); simpl; split;
      try (intros [b H]; discriminate);
      try (intros _; split; [reflexivity|]; auto; fail);
      try (intros _; eexists; reflexivity);
      try (intros [_ [H|H]]; discriminate).
  - split; [intros [b H]; discriminate | intros [H _]; discriminate].
Qed.

Lemma button_drawn_iff_witness :
  (Augmentations (Sample.globals false) !! augName Sample.ownedPlain
   = Some Sample.targeting1)
  /\ ~ (exists b,
          buyCell
            {| buyCell := Some None;
               nameCell := ("Augmented Targeting I"%string, TooltipHtml "info" "stats");
               requirementCells :=
                 Some (CostAndReputation primary
                         {| money := 1000 * 1; player := p Sample.ownedPlain |}
                         (500 * 1)) |}
          = Some (Some b)).
Proof.
  split; [reflexivity|].
  intros Hb.
  apply (proj1 (button_drawn_iff (Sample.globals false) Sample.targeting1
                  Sample.ownedPlain [] _ eq_refl eq_refl)) in Hb.
  destruct Hb as [_ [H|H]]; discriminate.
Defined.

(** The drawn button is in the error color exactly when a click on it
    does nothing. *)
Theorem button_red_iff_dead G aug props log row b :
  Augmentations G !! augName props = Some aug ->
  PurchaseableAugmentation G props = Normal (log, Row row) ->
  buyCell row = Some (Some b) ->
  (button_color b = error <-> onClick b = []).
Proof.
  intros Hin Hres Hbuy.
  destruct (row_of G aug props log row Hin Hres) as (_ & Hb & _ & _).
  rewrite Hb in Hbuy.
  destruct (notOwnedProp props); [|discriminate].
  destruct (status (uiProperties G aug props)) eqn:Hs; [|discriminate].
  inversion Hbuy; subst b; clear Hbuy. simpl.
  rewrite handleClick_nil.
  apply RowFacts.button_color_disabled. rewrite Hs. discriminate.
Qed.

Lemma button_red_iff_dead_witness :
  (Augmentations (Sample.globals false) !! augName Sample.shortOfMoney
   = Some Sample.targeting1)
  /\ (button_color {| onClick := []; button_color := error |} = error
      <-> onClick {| onClick := []; button_color := error |} = []).
Proof.
  split; [reflexivity|].
  exact (button_red_iff_dead (Sample.globals false) Sample.targeting1
           Sample.shortOfMoney [] _ _ eq_refl eq_refl eq_refl).
Defined.

(** When [props.owned] is true the row shows the name cell only: no
    purchase cell and no requirement cells, whatever the state of the
    entry, the faction and the player. *)
Theorem owned_list_row G aug props :
  Augmentations G !! augName props = Some aug ->
  owned_prop props = Some true ->
  PurchaseableAugmentation G props
  = Normal ([], Row {| buyCell := None;
                       nameCell := (btnTxt G aug, tooltip aug);
                       requirementCells := None |}).
Proof.
  intros Hin Hown. rewrite (RowFacts.render_found G aug props Hin).
  unfold notOwnedProp. rewrite Hown. reflexivity.
Qed.

Lemma owned_list_row_witness :
  (Augmentations (Sample.globals false) !! "Augmented Targeting II"%string
   = Some Sample.targeting2)
  /\ PurchaseableAugmentation (Sample.globals false)
       {| augName := "Augmented Targeting II"; faction := Sample.mkFaction 0 1 1;
          p := Sample.mkPlayer 0 [] []; owned_prop := Some true |}
     = Normal ([], Row {| buyCell := None;
                          nameCell := (btnTxt (Sample.globals false) Sample.targeting2,
                                       tooltip Sample.targeting2);
                          requirementCells := None |}).
Proof.
  split; [reflexivity|].
  exact (owned_list_row (Sample.globals false) Sample.targeting2
           {| augName := "Augmented Targeting II"; faction := Sample.mkFaction 0 1 1;
              p := Sample.mkPlayer 0 [] []; owned_prop := Some true |}
           eq_refl eq_refl).
Defined.

(** [owned()] is true exactly when some queued or installed augmentation
    of the player carries the row's name. *)
Theorem owned_iff_listed props :
  owned props = true
  <-> exists a,
        (In a (IPlayer.queuedAugmentations (p props))
         \/ In a (IPlayer.augmentations (p props)))
        /\ IPlayer.name a = augName props.
Proof.
  unfold owned. rewrite !RowFacts.ownedLoop_existsb, orb_false_r.
  rewrite orb_true_iff, !existsb_exists. split.
  - intros [(a & Ha & E)|(a & Ha & E)]; apply String.eqb_eq in E; exists a; auto.
  - intros (a & [Ha|Ha] & E); apply String.eqb_eq in E; [right|left]; exists a; auto.
Qed.

(** [Requirements] throws exactly when the prerequisites are reported
    unmet for a name the catalog does not hold; with the prerequisites
    reported met it never consults the catalog. *)
Theorem Requirements_throws_iff G rp :
  ((exists err, Requirements G rp = Throw err)
   <-> hasReq rp = false /\ Augmentations G !! req_augName rp = None)
  /\ (hasReq rp = true ->
      Requirements G rp
      = Normal (CostAndReputation
                  (if negb (hasRep rp) && negb (hasCost rp) then error else primary)
                  {| money := cost rp; player := req_p rp |} (rep rp))).
Proof.
  unfold Requirements.
  destruct (hasReq rp); simpl.
  - split; [|reflexivity]. split.
    + intros [err H]. discriminate.
    + intros [H _]. discriminate.
  - split; [|discriminate].
    destruct (Augmentations G !! req_augName rp); split.
    + intros [err H]. discriminate.
    + intros [_ H]. discriminate.
    + intros _. auto.
    + intros _. eexists. reflexivity.
Qed.

(** The amounts in the requirement cells are in the error color exactly
    when the reputation is short while the funds suffice; then the
    purchase is disabled.  When reputation and funds are both short the
    amounts are in the primary color. *)
Theorem requirement_color G aug props log row c m r :
  Augmentations G !! augName props = Some aug ->
  PurchaseableAugmentation G props = Normal (log, Row row) ->
  requirementCells row = Some (CostAndReputation c m r) ->
  (c = error <-> hasReputation aug props = false /\ hasCost_ aug props = false)
  /\ (c = error -> disabled (uiProperties G aug props) = true)
  /\ m = {| money := getMoneyCost aug props; player := p props |}
  /\ r = getRepCost aug props.
Proof.
  intros Hin Hres Hreq.
  rewrite (row_requirements G aug props log row Hin Hres) in Hreq.
  destruct (notOwnedProp props); [|discriminate].
  destruct (hasPrereqs aug props) eqn:Hp; [|discriminate].
  inversion Hreq; subst; clear Hreq.
  unfold uiProperties. rewrite Hp.
  destruct (isNeuroFlux G aug), (Augmentation.owned aug), (owned props),
    (hasReputation aug props), (hasCost_ aug props); simpl;
    repeat split; intros; try discriminate; try reflexivity;
    intuition discriminate.
Qed.

Lemma Requirements_throws_iff_witness :
  hasReq (requirementsProps Sample.targeting1 Sample.unknownProps) = true
  /\ Requirements (Sample.globals false)
       (requirementsProps Sample.targeting1 Sample.unknownProps)
     = Normal (CostAndReputation primary
                 {| money := 1000 * 1; player := p Sample.unknownProps |}
                 (500 * 1)).
Proof.
  split; [reflexivity|].
  exact (proj2 (Requirements_throws_iff (Sample.globals false)
                  (requirementsProps Sample.targeting1 Sample.unknownProps))
               eq_refl).
Defined.

Lemma requirement_color_witness :
  (Augmentations (Sample.globals false) !! augName Sample.shortOfReputation
   = Some Sample.targeting1)
  /\ (error = error
      <-> hasReputation Sample.targeting1 Sample.shortOfReputation = false
          /\ hasCost_ Sample.targeting1 Sample.shortOfReputation = false).
Proof.
  split; [reflexivity|].
  exact (proj1 (requirement_color (Sample.globals false) Sample.targeting1
                  Sample.shortOfReputation [] _ error _ _
                  eq_refl eq_refl eq_refl)).
Defined.

End RowMoreFacts.
